(** * BODMAS solver of [flask_app.py]: a shallow embedding

    The development follows class [BODMASSolver]: [solve], [validate_answer]
    and [get_correct_steps].  The Python facilities the class relies on are
    modelled first, each under the name it has in the source:

    - [str] values are Rocq strings read as sequences of code points below 256;
    - [re.search] is a backtracking matcher (leftmost match, greedy repetition)
      over the constructs that occur in the four patterns of the source;
    - [float] is IEEE binary64 ([PrimFloat]); [float(str)] rounds a decimal
      literal to nearest-even and [str(float)] prints the shortest decimal
      that reads back to the same number, as CPython does;
    - [eval] is a tokenizer, a parser and an evaluator for the arithmetic
      fragment of Python expressions (numbers, [+ - * / **], unary signs,
      parentheses and tuples).  Text outside that fragment is reported as
      [Outside]: the embedding says nothing about it.

    Limits of the host that depend on the machine (recursion depth, memory,
    the digit limit of integer conversion) are not modelled. *)

From Stdlib Require Import ZArith List String Ascii Bool Lia PeanoNat.
From Stdlib Require Import Floats.
Import ListNotations.

Local Open Scope string_scope.

(* ------------------------------------------------------------------ *)
(** ** Python strings                                                   *)
(* ------------------------------------------------------------------ *)

Module PyStr.

(** [s[:n]] *)
Fixpoint take (n : nat) (s : string) : string :=
  match n, s with
  | S n', String c s' => String c (take n' s')
  | _, _ => EmptyString
  end.

(** [s[n:]] *)
Fixpoint drop (n : nat) (s : string) : string :=
  match n, s with
  | S n', String _ s' => drop n' s'
  | _, _ => s
  end.

(** [s[i:j]] for [0 <= i], [0 <= j] *)
Definition slice (i j : nat) (s : string) : string := take (j - i) (drop i s).

(** [c in s] for a one-character [c] *)
Fixpoint contains_char (c : ascii) (s : string) : bool :=
  match s with
  | EmptyString => false
  | String d s' => Ascii.eqb c d || contains_char c s'
  end.

Fixpoint starts_with (p s : string) : bool :=
  match p, s with
  | EmptyString, _ => true
  | String a p', String b s' => Ascii.eqb a b && starts_with p' s'
  | String _ _, EmptyString => false
  end.

(** [p in s] for a string [p] *)
Fixpoint contains (p s : string) : bool :=
  starts_with p s ||
  match s with
  | EmptyString => false
  | String _ s' => contains p s'
  end.

(** [s.replace(c, '')] for a one-character [c] *)
Fixpoint remove_char (c : ascii) (s : string) : string :=
  match s with
  | EmptyString => EmptyString
  | String d s' => if Ascii.eqb c d then remove_char c s' else String d (remove_char c s')
  end.

(** number of occurrences of [c] in [s] *)
Fixpoint count_char (c : ascii) (s : string) : nat :=
  match s with
  | EmptyString => 0
  | String d s' => (if Ascii.eqb c d then 1 else 0) + count_char c s'
  end.

Definition code (c : ascii) : nat := nat_of_ascii c.

Definition is_digit (c : ascii) : bool := ((48 <=? code c) && (code c <=? 57))%nat.

(** what [\s] and [str.isspace] accept among the code points below 256 *)
Definition is_space (c : ascii) : bool :=
  let n := code c in
  (((9 <=? n) && (n <=? 13)) || ((28 <=? n) && (n <=? 32)) || (n =? 133) || (n =? 160))%nat.

End PyStr.

(* ------------------------------------------------------------------ *)
(** ** [re.search]                                                      *)
(* ------------------------------------------------------------------ *)

Module Re.
Import PyStr.

(** Sets of characters: [\d], [\s], a literal, [[abc]] and [[^abc]]. *)
Inductive cls : Type :=
| Digit
| Space
| Lit (c : ascii)
| AnyOf (l : list ascii)
| NoneOf (l : list ascii).

Definition mem (c : ascii) (l : list ascii) : bool := existsb (Ascii.eqb c) l.

Definition cls_ok (k : cls) (c : ascii) : bool :=
  match k with
  | Digit => is_digit c
  | Space => is_space c
  | Lit d => Ascii.eqb d c
  | AnyOf l => mem c l
  | NoneOf l => negb (mem c l)
  end.

(** Patterns: one character, [x?], [x*], [x+] (all greedy, over a set of
    characters, as in the source), sequence and numbered group. *)
Inductive regex : Type :=
| One (k : cls)
| Opt (k : cls)
| Star (k : cls)
| Plus (k : cls)
| Seq (r1 r2 : regex)
| Group (n : nat) (r : regex).

(** a closed group: its number, start and end offsets *)
Definition capture : Type := (nat * (nat * nat))%type.

Section Matcher.
Context {A : Type}.

(** what is left to match: the remaining text, its offset, the groups *)
Definition cont : Type := string -> nat -> list capture -> option A.

(** greedy repetition: take as many characters as possible, give back
    one at a time while the rest of the pattern fails *)
Fixpoint star_m (k : cls) (s : string) (pos : nat) (caps : list capture)
         (kont : cont) : option A :=
  match s with
  | String c s' =>
      if cls_ok k c then
        match star_m k s' (S pos) caps kont with
        | Some r => Some r
        | None => kont s pos caps
        end
      else kont s pos caps
  | EmptyString => kont s pos caps
  end.

Fixpoint rmatch (r : regex) (s : string) (pos : nat) (caps : list capture)
         (kont : cont) : option A :=
  match r with
  | One k =>
      match s with
      | String c s' => if cls_ok k c then kont s' (S pos) caps else None
      | EmptyString => None
      end
  | Opt k =>
      match s with
      | String c s' =>
          if cls_ok k c then
            match kont s' (S pos) caps with
            | Some r => Some r
            | None => kont s pos caps
            end
          else kont s pos caps
      | EmptyString => kont s pos caps
      end
  | Star k => star_m k s pos caps kont
  | Plus k =>
      match s with
      | String c s' => if cls_ok k c then star_m k s' (S pos) caps kont else None
      | EmptyString => None
      end
  | Seq r1 r2 => rmatch r1 s pos caps (fun s' p' c' => rmatch r2 s' p' c' kont)
  | Group n r1 => rmatch r1 s pos caps (fun s' p' c' => kont s' p' ((n, (pos, p')) :: c'))
  end.
End Matcher.

(** the match object: [start()], [end()] and the groups *)
Record rmatch_obj : Type := MkMatch {
  m_start : nat;
  m_end : nat;
  m_caps : list capture
}.

Definition match_at (r : regex) (s : string) (pos : nat) : option rmatch_obj :=
  rmatch r s pos [] (fun _ p c => Some (MkMatch pos p c)).

(** try every start offset from left to right, the end of the text included *)
Fixpoint search_from (r : regex) (s : string) (pos : nat) : option rmatch_obj :=
  match match_at r s pos with
  | Some m => Some m
  | None =>
      match s with
      | String _ s' => search_from r s' (S pos)
      | EmptyString => None
      end
  end.

Definition search (r : regex) (s : string) : option rmatch_obj := search_from r s 0.

Fixpoint find_cap (n : nat) (caps : list capture) : option (nat * nat) :=
  match caps with
  | [] => None
  | (k, se) :: rest => if Nat.eqb k n then Some se else find_cap n rest
  end.

(** [match.group(n)] on the text [s] that was searched *)
Definition group (s : string) (m : rmatch_obj) (n : nat) : string :=
  match n with
  | O => slice (m_start m) (m_end m) s
  | _ => match find_cap n (m_caps m) with
         | Some (a, b) => slice a b s
         | None => EmptyString
         end
  end.

(** The patterns of [get_correct_steps]. *)

(** an opening bracket, one or more characters that are not brackets, a
    closing bracket: the pattern of the bracket loop *)
Definition bracket_re : regex :=
  Seq (One (Lit "(")) (Seq (Plus (NoneOf ["("; ")"]%char)) (One (Lit ")"))).

(** digits, an optional point, further digits: an unsigned literal *)
Definition unsigned_re : regex :=
  Seq (Plus Digit) (Seq (Opt (Lit ".")) (Star Digit)).

(** the same behind an optional minus sign: a signed literal *)
Definition signed_re : regex := Seq (Opt (Lit "-")) unsigned_re.

(** group 1: unsigned literal; two stars; group 2: unsigned literal *)
Definition exponent_re : regex :=
  Seq (Group 1 unsigned_re)
      (Seq (One (Lit "*")) (Seq (One (Lit "*")) (Group 2 unsigned_re))).

(** group 1: signed literal; white space; group 2: one of [ops]; white
    space; group 3: signed literal *)
Definition binop_re (ops : list ascii) : regex :=
  Seq (Group 1 signed_re)
      (Seq (Star Space)
           (Seq (Group 2 (One (AnyOf ops)))
                (Seq (Star Space) (Group 3 signed_re)))).

(** the pattern of the multiplication and division loop *)
Definition muldiv_re : regex := binop_re ["*"; "/"]%char.

(** the pattern of the addition and subtraction loop *)
Definition addsub_re : regex := binop_re ["+"; "-"]%char.

End Re.

(* ------------------------------------------------------------------ *)
(** ** Python numbers: [int], [float], their conversions and their text *)
(* ------------------------------------------------------------------ *)

Module PyNum.
Import PyStr.
Local Open Scope Z_scope.

(** *** Reading decimal text *)

Definition digit_val (c : ascii) : Z := Z.of_nat (code c) - 48.

(** the leading digits of [s] folded into [acc], how many they are, and
    what follows them *)
Fixpoint read_digits (s : string) (acc : Z) (cnt : Z) : Z * Z * string :=
  match s with
  | String c s' =>
      if is_digit c then read_digits s' (10 * acc + digit_val c) (cnt + 1)
      else (acc, cnt, s)
  | EmptyString => (acc, cnt, s)
  end.

(** *** Rounding to binary64 (round to nearest, ties to even) *)

(** [n / d] for [0 < n] and [0 < d]: a quotient of at least 63 bits whose
    lowest bit records whether the division left a remainder *)
Definition round_ratio (n d : Z) : spec_float :=
  let s := Z.max 0 (Z.log2 d - Z.log2 n + 64) in
  let q := (n * 2 ^ s) / d in
  let r := (n * 2 ^ s) mod d in
  let m := 2 * q + (if r =? 0 then 0 else 1) in
  binary_normalize prec emax m (- s - 1) false.

(** [n * 10 ^ k] for [0 <= n] *)
Definition round_decimal (n k : Z) : spec_float :=
  if n =? 0 then S754_zero false
  else if 0 <=? k then round_ratio (n * 10 ^ k) 1
  else round_ratio n (10 ^ (- k)).

Definition with_sign (neg : bool) (f : float) : float :=
  if neg then (- f)%float else f.

(** the float nearest to [(-1)^neg * n * 10^k] *)
Definition float_of_decimal (neg : bool) (n k : Z) : float :=
  with_sign neg (SF2Prim (round_decimal n k)).

(** [float(s)] for the texts the patterns of the source capture: an
    optional minus sign, digits, an optional point, digits.  [None] is
    Python's [ValueError]. *)
Definition float_of_str (s : string) : option float :=
  let '(neg, body) :=
    match s with
    | String "-" s' => (true, s')
    | _ => (false, s)
    end in
  let '(ip, icnt, rest) := read_digits body 0 0 in
  if icnt =? 0 then None
  else
    match rest with
    | EmptyString => Some (float_of_decimal neg ip 0)
    | String "." rest' =>
        let '(fp, fcnt, rest'') := read_digits rest' ip 0 in
        match rest'' with
        | EmptyString => Some (float_of_decimal neg fp (- fcnt))
        | _ => None
        end
    | _ => None
    end.

(** [float(z)] for an [int]: [None] is [OverflowError] *)
Definition float_of_int (z : Z) : option float :=
  match binary_normalize prec emax z 0 false with
  | S754_infinity _ => None
  | sf => Some (SF2Prim sf)
  end.

(** [a / b] for two [int]s, [b <> 0]: the exact quotient rounded once;
    [None] is [OverflowError] *)
Definition int_true_divide (a b : Z) : option float :=
  if a =? 0 then Some (with_sign (b <? 0) zero)
  else
    match round_ratio (Z.abs a) (Z.abs b) with
    | S754_infinity _ => None
    | sf => Some (with_sign (negb (Bool.eqb (a <? 0) (b <? 0))) (SF2Prim sf))
    end.

(** the integer a float holds, when it holds one *)
Definition int_of_float (f : float) : option Z :=
  match Prim2SF f with
  | S754_zero _ => Some 0
  | S754_finite s m e =>
      let v := if 0 <=? e then Z.pos m * 2 ^ e
               else if (Z.pos m) mod (2 ^ (- e)) =? 0 then Z.pos m / 2 ^ (- e) else -1 in
      if v <? 0 then None else Some (if s then - v else v)
  | _ => None
  end.

(** *** Writing decimal text *)

Definition digit_char (d : Z) : ascii := ascii_of_nat (Z.to_nat (48 + d)).

Fixpoint digits_fuel (fuel : nat) (n : Z) (acc : string) : string :=
  match fuel with
  | O => acc
  | S fuel' =>
      let acc' := String (digit_char (n mod 10)) acc in
      if n <? 10 then acc' else digits_fuel fuel' (n / 10) acc'
  end.

(** the decimal digits of [0 <= n] *)
Definition digits_of (n : Z) : string :=
  digits_fuel (S (Z.to_nat (Z.log2 n))) n EmptyString.

(** [str(z)] for an [int] *)
Definition str_int (z : Z) : string :=
  if z <? 0 then String "-" (digits_of (- z)) else digits_of z.

(** *** [str(f)] for a [float]: the shortest decimal that reads back as [f] *)

(** the least [p] with [num / den < 10 ^ p], searched upwards from [p] *)
Fixpoint decpt_up (fuel : nat) (num den p : Z) : Z :=
  match fuel with
  | O => p
  | S fuel' => if num <? den * 10 ^ p then p else decpt_up fuel' num den (p + 1)
  end.

(** the least [p] with [num / den < 10 ^ p], searched downwards from [1 - k] *)
Fixpoint decpt_down (fuel : nat) (num den k : Z) : Z :=
  match fuel with
  | O => 1 - k
  | S fuel' => if den <=? num * 10 ^ k then 1 - k else decpt_down fuel' num den (k + 1)
  end.

(** the position of the decimal point: [10^(p-1) <= num/den < 10^p] *)
Definition decpt (num den : Z) : Z :=
  if den <=? num then decpt_up 400 num den 1 else decpt_down 400 num den 1.

Definition sf_is (sf : spec_float) (m : positive) (e : Z) : bool :=
  match sf with
  | S754_finite _ m' e' => Pos.eqb m m' && (e =? e')
  | _ => false
  end.

(** the [nd]-digit decimals just below and just above [num / den], and
    the one of them, if any, that reads back as the float [m * 2^e];
    of two that do, the nearer one (the even one on a tie) *)
Definition candidate (m : positive) (e : Z) (num den p : Z) (nd : Z) : option (Z * Z) :=
  let q := p - nd in
  let num' := if q <? 0 then num * 10 ^ (- q) else num in
  let den' := if q <? 0 then den else den * 10 ^ q in
  let lo := num' / den' in
  let r := num' mod den' in
  let ok c := sf_is (round_decimal c q) m e in
  if r =? 0 then (if ok lo then Some (lo, q) else None)
  else
    let hi := lo + 1 in
    match ok lo, ok hi with
    | true, true =>
        if 2 * r <? den' then Some (lo, q)
        else if den' <? 2 * r then Some (hi, q)
        else if Z.even lo then Some (lo, q) else Some (hi, q)
    | true, false => Some (lo, q)
    | false, true => Some (hi, q)
    | false, false => None
    end.

Fixpoint shortest_from (fuel : nat) (m : positive) (e : Z) (num den p : Z) (nd : Z)
  : Z * Z :=
  match fuel with
  | O => (0, 0)
  | S fuel' =>
      match candidate m e num den p nd with
      | Some c => c
      | None => shortest_from fuel' m e num den p (nd + 1)
      end
  end.

(** trailing zeros move from the digits to the exponent *)
Fixpoint strip_zeros (fuel : nat) (c q : Z) : Z * Z :=
  match fuel with
  | O => (c, q)
  | S fuel' => if (c mod 10 =? 0) && (0 <? c) then strip_zeros fuel' (c / 10) (q + 1) else (c, q)
  end.

(** digits [c] and exponent [q] with [m * 2^e] written [c * 10^q], [c]
    as short as possible *)
Definition shortest (m : positive) (e : Z) : Z * Z :=
  let num := if e <? 0 then Z.pos m else Z.pos m * 2 ^ e in
  let den := if e <? 0 then 2 ^ (- e) else 1 in
  let '(c, q) := shortest_from 17 m e num den (decpt num den) 1 in
  strip_zeros 20 c q.

Fixpoint zeros (n : nat) : string :=
  match n with
  | O => EmptyString
  | S n' => String "0" (zeros n')
  end.

Definition pad2 (s : string) : string :=
  match s with
  | String _ EmptyString => String "0" s
  | _ => s
  end.

(** the layout of [repr]: exponent form when the point would sit more
    than 16 places right or more than 3 zeros left of the digits *)
Definition layout (ds : string) (dp : Z) : string :=
  let nd := Z.of_nat (String.length ds) in
  if (dp <=? -4) || (16 <? dp) then
    let mant := match ds with
                | String d EmptyString => ds
                | String d rest => String d (String "." rest)
                | EmptyString => ds
                end in
    let ex := dp - 1 in
    let sg := if ex <? 0 then "-"%string else "+"%string in
    (mant ++ "e" ++ sg ++ pad2 (digits_of (Z.abs ex)))%string
  else if dp <=? 0 then
    ("0." ++ zeros (Z.to_nat (- dp)) ++ ds)%string
  else if nd <=? dp then
    (ds ++ zeros (Z.to_nat (dp - nd)) ++ ".0")%string
  else
    (take (Z.to_nat dp) ds ++ "." ++ drop (Z.to_nat dp) ds)%string.

Definition str_float (f : float) : string :=
  match Prim2SF f with
  | S754_nan => "nan"%string
  | S754_infinity s => if s then "-inf"%string else "inf"%string
  | S754_zero s => if s then "-0.0"%string else "0.0"%string
  | S754_finite s m e =>
      let '(c, q) := shortest m e in
      let ds := digits_of c in
      let body := layout ds (q + Z.of_nat (String.length ds)) in
      if s then String "-" body else body
  end.

End PyNum.

(* ------------------------------------------------------------------ *)
(** ** Python values and operators                                      *)
(* ------------------------------------------------------------------ *)

(** What running a piece of host code can give: a result, an exception
    (all of them are caught alike by the source), or behaviour that this
    embedding does not describe. *)
Inductive res (A : Type) : Type :=
| Ok (a : A)
| Raise
| Outside.
Arguments Ok {A} a.
Arguments Raise {A}.
Arguments Outside {A}.

Definition bind {A B : Type} (x : res A) (f : A -> res B) : res B :=
  match x with
  | Ok a => f a
  | Raise => Raise
  | Outside => Outside
  end.

Definition of_option {A : Type} (o : option A) : res A :=
  match o with
  | Some a => Ok a
  | None => Raise
  end.

Notation "x <- c1 ;; c2" := (bind c1 (fun x => c2))
  (at level 61, c1 at next level, right associativity).

Module PyVal.
Import PyStr PyNum.
Local Open Scope Z_scope.

Inductive value : Type :=
| VInt (z : Z)
| VFloat (f : float)
| VTuple (vs : list value).

Inductive binop : Type := Add | Sub | Mul | Div | Pow.

(** [float ** float].  The C library's [pow] is described where its
    result is exact: exponent zero, or an integer base that is not
    [-0.0] with a positive integer exponent and a power within 53 bits;
    a power of 1024 or more of a base of magnitude at least 2 overflows,
    which Python reports as [OverflowError]. *)
Definition float_pow (a b : float) : res float :=
  if (b =? 0)%float then Ok one
  else
    match Prim2SF a, int_of_float a, int_of_float b with
    | S754_zero true, _, _ => Outside
    | _, Some x, Some y =>
        if y <? 0 then Outside
        else if (2 <=? Z.abs x) && (1024 <=? y) then Raise
        else
          let r := x ^ (Z.min y 1024) in
          if Z.abs r <=? 2 ^ 53 then of_option (float_of_int r) else Outside
    | _, _, _ => Outside
    end.

(** [x ** y] on floats: a zero base with a negative exponent is
    [ZeroDivisionError] *)
Definition float_power (x y : float) : res float :=
  if (x =? 0)%float && (y <? 0)%float then Raise else float_pow x y.

(** the [float] an operand of a mixed operation is turned into *)
Definition as_float (v : value) : res float :=
  match v with
  | VInt z => of_option (float_of_int z)
  | VFloat f => Ok f
  | VTuple _ => Raise
  end.

Fixpoint repeat_list {A : Type} (n : nat) (l : list A) : list A :=
  match n with
  | O => []
  | S n' => l ++ repeat_list n' l
  end.

Definition float_div (x y : float) : res value :=
  if (y =? 0)%float then Raise else Ok (VFloat (x / y)%float).

Definition on_floats (f : float -> float -> res value) (a b : value) : res value :=
  x <- as_float a ;; y <- as_float b ;; f x y.

(** [a op b] *)
Definition binary (op : binop) (a b : value) : res value :=
  match op, a, b with
  | Add, VInt x, VInt y => Ok (VInt (x + y))
  | Add, VTuple x, VTuple y => Ok (VTuple (x ++ y))
  | Add, _, _ => on_floats (fun x y => Ok (VFloat (x + y)%float)) a b
  | Sub, VInt x, VInt y => Ok (VInt (x - y))
  | Sub, _, _ => on_floats (fun x y => Ok (VFloat (x - y)%float)) a b
  | Mul, VInt x, VInt y => Ok (VInt (x * y))
  | Mul, VTuple x, VInt n => Ok (VTuple (repeat_list (Z.to_nat n) x))
  | Mul, VInt n, VTuple x => Ok (VTuple (repeat_list (Z.to_nat n) x))
  | Mul, _, _ => on_floats (fun x y => Ok (VFloat (x * y)%float)) a b
  | Div, VInt x, VInt y =>
      if y =? 0 then Raise
      else f <- of_option (int_true_divide x y) ;; Ok (VFloat f)
  | Div, _, _ => on_floats float_div a b
  | Pow, VInt x, VInt y =>
      if 0 <=? y then Ok (VInt (x ^ y))
      else if x =? 0 then Raise
      else on_floats (fun x y => f <- float_power x y ;; Ok (VFloat f)) a b
  | Pow, _, _ => on_floats (fun x y => f <- float_power x y ;; Ok (VFloat f)) a b
  end.

(** [-a] *)
Definition negate (a : value) : res value :=
  match a with
  | VInt x => Ok (VInt (- x))
  | VFloat f => Ok (VFloat (- f)%float)
  | VTuple _ => Raise
  end.

(** [+a] *)
Definition plus (a : value) : res value :=
  match a with
  | VTuple _ => Raise
  | _ => Ok a
  end.

(** [float(v)] *)
Definition to_float (v : value) : res float := as_float v.

Definition join_comma (parts : list string) : string :=
  match parts with
  | [] => EmptyString
  | [p] => (p ++ ",")%string
  | p :: rest => fold_left (fun acc q => (acc ++ ", " ++ q)%string) rest p
  end.

(** [str(v)]; a tuple shows its items between brackets *)
Fixpoint str (v : value) : string :=
  match v with
  | VInt z => str_int z
  | VFloat f => str_float f
  | VTuple vs => ("(" ++ join_comma (map str vs) ++ ")")%string
  end.

End PyVal.

(* ------------------------------------------------------------------ *)
(** ** [eval]: the arithmetic fragment of Python expressions            *)
(* ------------------------------------------------------------------ *)

Module PyEval.
Import PyStr PyNum PyVal.

Inductive token : Type :=
| TNum (v : value)
| TPlus | TMinus | TStar | TSlash | TPow
| TLParen | TRParen | TComma.

Local Open Scope Z_scope.

(** an exponent: [e] or [E], an optional sign, one digit or more *)
Definition read_exponent (s : string) : option (Z * string) :=
  match s with
  | String c s1 =>
      if Ascii.eqb c "e" || Ascii.eqb c "E" then
        let '(neg, s2) :=
          match s1 with
          | String "-" s' => (true, s')
          | String "+" s' => (false, s')
          | _ => (false, s1)
          end in
        let '(ex, cnt, rest) := read_digits s2 0 0 in
        if cnt =? 0 then None else Some (if neg then - ex else ex, rest)
      else None
  | EmptyString => None
  end.

Definition starts_with_e (s : string) : bool :=
  match s with
  | String c _ => Ascii.eqb c "e" || Ascii.eqb c "E"
  | EmptyString => false
  end.

Definition has_leading_zero (s : string) : bool :=
  match s with
  | String "0" _ => true
  | _ => false
  end.

(** A number at the head of [s], which starts with a digit or with a
    point followed by a digit.  An integer written with a leading zero is
    a syntax error unless it is zero; a letter glued to a number that is
    no exponent is left to [Outside]. *)
Definition lex_number (s : string) : res (value * string) :=
  let '(ip, icnt, r1) := read_digits s 0 0 in
  match r1 with
  | String "." r2 =>
      let '(fp, fcnt, r3) := read_digits r2 ip 0 in
      if (icnt =? 0) && (fcnt =? 0) then Outside
      else
        match read_exponent r3 with
        | Some (ex, r4) =>
            if starts_with_e r4 then Outside
            else Ok (VFloat (float_of_decimal false fp (ex - fcnt)), r4)
        | None =>
            if starts_with_e r3 then Outside
            else Ok (VFloat (float_of_decimal false fp (- fcnt)), r3)
        end
  | _ =>
      if icnt =? 0 then Outside
      else
        match read_exponent r1 with
        | Some (ex, r4) =>
            if starts_with_e r4 then Outside
            else Ok (VFloat (float_of_decimal false ip ex), r4)
        | None =>
            if starts_with_e r1 then Outside
            else if has_leading_zero s && negb (ip =? 0) then Raise
            else Ok (VInt ip, r1)
        end
  end.

(** Tokens of [s].  Blanks and tabs separate tokens; any character that
    is not part of the fragment gives [Outside]. *)
Fixpoint tokenize (fuel : nat) (s : string) : res (list token) :=
  match fuel with
  | O => Outside
  | S fuel' =>
      match s with
      | EmptyString => Ok []
      | String c s' =>
          let push t rest := (ts <- tokenize fuel' rest ;; Ok (t :: ts)) in
          if Ascii.eqb c " " || Ascii.eqb c "009" then tokenize fuel' s'
          else if Ascii.eqb c "+" then push TPlus s'
          else if Ascii.eqb c "-" then push TMinus s'
          else if Ascii.eqb c "(" then push TLParen s'
          else if Ascii.eqb c ")" then push TRParen s'
          else if Ascii.eqb c "," then push TComma s'
          else if Ascii.eqb c "*" then
            match s' with
            | String "*" s'' => push TPow s''
            | _ => push TStar s'
            end
          else if Ascii.eqb c "/" then
            match s' with
            | String "/" _ => Outside
            | _ => push TSlash s'
            end
          else if is_digit c || Ascii.eqb c "." then
            match lex_number s with
            | Ok (v, rest) => push (TNum v) rest
            | Raise => Raise
            | Outside => Outside
            end
          else Outside
      end
  end.

(** *** Syntax trees *)

Inductive expr : Type :=
| ENum (v : value)
| ENeg (e : expr)
| EPos (e : expr)
| EBin (op : binop) (e1 e2 : expr)
| ETuple (es : list expr).

(** *** The parser

    One function per rule of the grammar:
    - [parse_list]: expressions separated by commas (a tuple when there
      is a comma);
    - [parse_sum]: terms joined by [+] and [-], left to right;
    - [parse_term]: factors joined by [*] and [/], left to right;
    - [parse_factor]: signs in front of a power;
    - [parse_power]: an atom, with [**] and a factor to its right;
    - [parse_atom]: a number or a bracketed list.
    A star where an operand is expected (unpacking) and a bracket right
    after an operand (a call) are left to [Outside]. *)

Definition pres : Type := res (expr * list token).

Fixpoint parse_sum (fuel : nat) (ts : list token) {struct fuel} : pres :=
  match fuel with
  | O => Outside
  | S fuel' =>
      r <- parse_term fuel' ts ;; sum_rest fuel' (fst r) (snd r)
  end
with sum_rest (fuel : nat) (acc : expr) (ts : list token) {struct fuel} : pres :=
  match fuel with
  | O => Outside
  | S fuel' =>
      match ts with
      | TPlus :: ts' =>
          r <- parse_term fuel' ts' ;; sum_rest fuel' (EBin Add acc (fst r)) (snd r)
      | TMinus :: ts' =>
          r <- parse_term fuel' ts' ;; sum_rest fuel' (EBin Sub acc (fst r)) (snd r)
      | _ => Ok (acc, ts)
      end
  end
with parse_term (fuel : nat) (ts : list token) {struct fuel} : pres :=
  match fuel with
  | O => Outside
  | S fuel' =>
      r <- parse_factor fuel' ts ;; term_rest fuel' (fst r) (snd r)
  end
with term_rest (fuel : nat) (acc : expr) (ts : list token) {struct fuel} : pres :=
  match fuel with
  | O => Outside
  | S fuel' =>
      match ts with
      | TStar :: ts' =>
          r <- parse_factor fuel' ts' ;; term_rest fuel' (EBin Mul acc (fst r)) (snd r)
      | TSlash :: ts' =>
          r <- parse_factor fuel' ts' ;; term_rest fuel' (EBin Div acc (fst r)) (snd r)
      | _ => Ok (acc, ts)
      end
  end
with parse_factor (fuel : nat) (ts : list token) {struct fuel} : pres :=
  match fuel with
  | O => Outside
  | S fuel' =>
      match ts with
      | TMinus :: ts' => r <- parse_factor fuel' ts' ;; Ok (ENeg (fst r), snd r)
      | TPlus :: ts' => r <- parse_factor fuel' ts' ;; Ok (EPos (fst r), snd r)
      | _ => parse_power fuel' ts
      end
  end
with parse_power (fuel : nat) (ts : list token) {struct fuel} : pres :=
  match fuel with
  | O => Outside
  | S fuel' =>
      r <- parse_atom fuel' ts ;;
      match snd r with
      | TPow :: ts' =>
          r2 <- parse_factor fuel' ts' ;; Ok (EBin Pow (fst r) (fst r2), snd r2)
      | TLParen :: _ => Outside
      | _ => Ok r
      end
  end
with parse_atom (fuel : nat) (ts : list token) {struct fuel} : pres :=
  match fuel with
  | O => Outside
  | S fuel' =>
      match ts with
      | TNum v :: ts' => Ok (ENum v, ts')
      | TLParen :: TRParen :: ts' => Ok (ETuple [], ts')
      | TLParen :: ts' =>
          r <- parse_list fuel' ts' ;;
          match snd r with
          | TRParen :: ts'' => Ok (fst r, ts'')
          | _ => Raise
          end
      | TStar :: _ => Outside
      | TPow :: _ => Outside
      | _ => Raise
      end
  end
with parse_list (fuel : nat) (ts : list token) {struct fuel} : pres :=
  match fuel with
  | O => Outside
  | S fuel' =>
      r <- parse_sum fuel' ts ;;
      match snd r with
      | TComma :: ts' => items_rest fuel' [fst r] ts'
      | _ => Ok r
      end
  end
with items_rest (fuel : nat) (acc : list expr) (ts : list token) {struct fuel} : pres :=
  match fuel with
  | O => Outside
  | S fuel' =>
      match ts with
      | [] => Ok (ETuple (rev acc), ts)
      | TRParen :: _ => Ok (ETuple (rev acc), ts)
      | _ =>
          r <- parse_sum fuel' ts ;;
          match snd r with
          | TComma :: ts' => items_rest fuel' (fst r :: acc) ts'
          | _ => Ok (ETuple (rev (fst r :: acc)), snd r)
          end
      end
  end.

(** the whole text must be one expression list *)
Definition parse (ts : list token) : res expr :=
  r <- parse_list (8 * List.length ts + 8) ts ;;
  match snd r with
  | [] => Ok (fst r)
  | TStar :: _ => Outside
  | TPow :: _ => Outside
  | _ => Raise
  end.

(** *** Evaluation: operands from left to right, then the operator *)

Fixpoint eval_expr (e : expr) : res value :=
  match e with
  | ENum v => Ok v
  | ENeg e1 => v <- eval_expr e1 ;; negate v
  | EPos e1 => v <- eval_expr e1 ;; plus v
  | EBin op e1 e2 => a <- eval_expr e1 ;; b <- eval_expr e2 ;; binary op a b
  | ETuple es =>
      let items :=
        fix items (l : list expr) : res (list value) :=
          match l with
          | [] => Ok []
          | x :: l' => v <- eval_expr x ;; vs <- items l' ;; Ok (v :: vs)
          end in
      vs <- items es ;; Ok (VTuple vs)
  end.

(** the tokens of the whole text *)
Definition lex (s : string) : res (list token) := tokenize (S (String.length s)) s.

(** [eval(s)] *)
Definition eval (s : string) : res value :=
  ts <- lex s ;;
  e <- parse ts ;;
  eval_expr e.

End PyEval.

(* ------------------------------------------------------------------ *)
(** ** class [BODMASSolver]                                             *)
(* ------------------------------------------------------------------ *)

Module BODMASSolver.
Import PyStr PyNum PyVal.

(** *** [__init__]: the table [self.operations]

    Each symbol with its precedence and its function.  The functions are
    those of the lambdas: the one of ['/'] gives [float('inf')] when the
    divisor compares equal to zero. *)

Definition is_zero (v : value) : bool :=
  match v with
  | VInt z => Z.eqb z 0
  | VFloat f => (f =? 0)%float
  | VTuple _ => false
  end.

Definition operations : list (string * (nat * (value -> value -> res value))) :=
  [("+", (1, binary Add));
   ("-", (1, binary Sub));
   ("*", (2, binary Mul));
   ("/", (2, fun a b => if negb (is_zero b) then binary Div a b else Ok (VFloat infinity)));
   ("**", (3, binary Pow))].

(** [self.operations[sym]] *)
Fixpoint lookup (sym : string) (table : list (string * (nat * (value -> value -> res value))))
  : option (nat * (value -> value -> res value)) :=
  match table with
  | [] => None
  | (k, entry) :: rest => if String.eqb k sym then Some entry else lookup sym rest
  end.

(** *** [solve]

    [Ok (Some f)]: the call returns the float [f]; [Ok None]: it returns
    [None], the value of its [except] branch. *)
Definition solve (expr : string) : res (option float) :=
  match PyEval.eval expr with
  | Ok result =>
      match to_float result with
      | Ok f => Ok (Some f)
      | Raise => Ok None
      | Outside => Outside
      end
  | Raise => Ok None
  | Outside => Outside
  end.

(** *** [validate_answer] *)

(** the two shapes of the dictionary that is returned *)
Inductive validation : Type :=
| Checked (is_correct : bool) (correct_answer : float) (student_answer : float)
| Invalid (error : string).

(** the constant [0.0001] *)
Definition tolerance : float := float_of_decimal false 1 (-4).

Definition validate_answer (expr : string) (student_answer : float) : res validation :=
  r <- solve expr ;;
  match r with
  | None => Ok (Invalid "Invalid expression")
  | Some correct_answer =>
      let is_correct := (abs (student_answer - correct_answer) <? tolerance)%float in
      Ok (Checked is_correct correct_answer student_answer)
  end.

(** *** [get_correct_steps] *)

(** an entry of [steps]: the keys ['step'], ['expression'], ['description'] *)
Record step : Type := MkStep {
  step_no : nat;
  expression : string;
  description : string
}.

(** the variables the loops update *)
Record state : Type := MkState {
  steps : list step;
  step_num : nat;
  current_expr : string
}.

(** one turn of a [while] loop: the body ran to its end, it left through
    [break], the loop condition was false, or the turn is not described *)
Inductive turn : Type :=
| Continue (st : state)
| Break
| Exit
| Unknown.

(** the common end of the four loop bodies: splice [shown] over the
    offsets [a .. b] of [current_expr] and record the step *)
Definition record_step (st : state) (a b : nat) (shown : string) (descr : string) : state :=
  let new_expr := (take a (current_expr st) ++ shown ++ drop b (current_expr st))%string in
  MkState (steps st ++ [MkStep (step_num st) new_expr descr]) (S (step_num st)) new_expr.

(** [while '(' in current_expr] *)
Definition bracket_turn (st : state) : turn :=
  let cur := current_expr st in
  if contains_char "(" cur then
    match Re.search Re.bracket_re cur with
    | Some m =>
        let g := Re.group cur m 0 in
        let bracket_expr := slice 1 (String.length g - 1) g in
        match PyEval.eval bracket_expr with
        | Ok bracket_result =>
            let shown := str bracket_result in
            Continue (record_step st (Re.m_start m) (Re.m_end m) shown
                        ("Brackets: (" ++ bracket_expr ++ ") = " ++ shown))
        | Raise => Break
        | Outside => Unknown
        end
    | None => Break
    end
  else Exit.

(** [while '**' in current_expr] *)
Definition exponent_turn (st : state) : turn :=
  let cur := current_expr st in
  if contains "**" cur then
    match Re.search Re.exponent_re cur with
    | Some m =>
        match
          (a <- of_option (float_of_str (Re.group cur m 1)) ;;
           b <- of_option (float_of_str (Re.group cur m 2)) ;;
           float_power a b)
        with
        | Ok result =>
            let shown := str_float result in
            Continue (record_step st (Re.m_start m) (Re.m_end m) shown
                        ("Orders/Exponents: " ++ Re.group cur m 0 ++ " = " ++ shown))
        | Raise => Break
        | Outside => Unknown
        end
    | None => Break
    end
  else Exit.

(** [while '*' in current_expr or '/' in current_expr] *)
Definition muldiv_turn (st : state) : turn :=
  let cur := current_expr st in
  if contains_char "*" cur || contains_char "/" cur then
    match Re.search Re.muldiv_re cur with
    | Some m =>
        let op := Re.group cur m 2 in
        match float_of_str (Re.group cur m 1), float_of_str (Re.group cur m 3) with
        | Some a, Some b =>
            let result :=
              if String.eqb op "*" then (a * b)%float
              else if negb (b =? 0)%float then (a / b)%float
              else infinity in
            let shown := str_float result in
            Continue (record_step st (Re.m_start m) (Re.m_end m) shown
                        ("Division/Multiplication: " ++ Re.group cur m 0 ++ " = " ++ shown))
        | _, _ => Break
        end
    | None => Break
    end
  else Exit.

(** [while '+' in current_expr[1:] or '-' in current_expr[1:]] *)
Definition addsub_turn (st : state) : turn :=
  let cur := current_expr st in
  let tail := drop 1 cur in
  if contains_char "+" tail || contains_char "-" tail then
    match Re.search Re.addsub_re tail with
    | Some m =>
        let offset := 1 in
        let op := Re.group tail m 2 in
        match float_of_str (Re.group tail m 1), float_of_str (Re.group tail m 3) with
        | Some a, Some b =>
            let result := if String.eqb op "+" then (a + b)%float else (a - b)%float in
            let shown := str_float result in
            Continue (record_step st (Re.m_start m + offset) (Re.m_end m + offset) shown
                        ("Addition/Subtraction: " ++ Re.group tail m 0 ++ " = " ++ shown))
        | _, _ => Break
        end
    | None => Break
    end
  else Exit.

(** how a run of the function ends: it returns, it is not described, or
    the loops are still turning when the fuel is spent *)
Inductive run (A : Type) : Type :=
| Returns (a : A)
| NotDescribed
| OutOfFuel.
Arguments Returns {A} a.
Arguments NotDescribed {A}.
Arguments OutOfFuel {A}.

(** a [while] loop, at most [fuel] turns of it *)
Fixpoint while (body : state -> turn) (fuel : nat) (st : state) : run state :=
  match body st with
  | Continue st' =>
      match fuel with
      | O => OutOfFuel
      | S fuel' => while body fuel' st'
      end
  | Break => Returns st
  | Exit => Returns st
  | Unknown => NotDescribed
  end.

Definition then_run {A B : Type} (x : run A) (f : A -> run B) : run B :=
  match x with
  | Returns a => f a
  | NotDescribed => NotDescribed
  | OutOfFuel => OutOfFuel
  end.

(** the state before the first loop: step 0 holds [expr] as given, the
    working text is [expr] without blanks *)
Definition initial (expr : string) : state :=
  MkState [MkStep 0 expr "Original expression"] 1 (remove_char " " expr).

Definition get_correct_steps_fuel (fuel : nat) (expr : string) : run (list step) :=
  then_run (while bracket_turn fuel (initial expr)) (fun st1 =>
  then_run (while exponent_turn fuel st1) (fun st2 =>
  then_run (while muldiv_turn fuel st2) (fun st3 =>
  then_run (while addsub_turn fuel st3) (fun st4 =>
  Returns (steps st4))))).

(** [get_correct_steps(expr)] returns [trace] *)
Definition get_correct_steps (expr : string) (trace : list step) : Prop :=
  exists fuel, get_correct_steps_fuel fuel expr = Returns trace.

End BODMASSolver.

(* ------------------------------------------------------------------ *)
(** ** The helper functions and the routes that call the solver         *)
(* ------------------------------------------------------------------ *)

(** The routes are functions of the parsed request body.  The bodies
    described are JSON objects whose ['expression'], when present, is a
    string and whose ['answer'], when present, is a number; a reply is a
    status code with the fields handed to [jsonify]. *)
Module FlaskApp.
Import PyStr PyNum PyVal BODMASSolver.

(** *** [get_sample_questions] *)

Record question : Type := MkQuestion {
  q_id : nat;
  q_question : string;
  q_difficulty : string;
  q_concept : string;
  q_correct_answer : Z
}.

Definition get_sample_questions : list question :=
  [MkQuestion 1 "2 + 3 * 4" "Easy" "Multiplication before Addition" 14;
   MkQuestion 2 "(2 + 3) * 4" "Easy" "Brackets first" 20;
   MkQuestion 3 "10 - 2 * 3" "Medium" "Multiplication before Subtraction" 4;
   MkQuestion 4 "20 / 4 + 3" "Medium" "Division before Addition" 8;
   MkQuestion 5 "2 ** 3 + 4" "Medium" "Orders/Exponents first" 12;
   MkQuestion 6 "(10 - 4) * 2 + 3" "Hard" "Complex expression" 15;
   MkQuestion 7 "24 / 3 / 2" "Hard" "Division left to right" 4;
   MkQuestion 8 "2 * 3 + 4 * 5" "Hard" "Multiple operations" 26].

(** *** [generate_feedback] *)

Fixpoint of_bytes (l : list nat) : string :=
  match l with
  | [] => EmptyString
  | b :: l' => String (ascii_of_nat b) (of_bytes l')
  end.

(** the two pictograms of the messages, as their UTF-8 bytes *)
Definition party_popper : string := of_bytes [240; 159; 142; 137].
Definition cross_mark : string := of_bytes [226; 157; 140].

(** a dictionary without ['student_answer'] makes the second message
    raise [KeyError] *)
Definition generate_feedback (v : validation) : res string :=
  match v with
  | Checked true _ _ => Ok (party_popper ++ " Excellent! Your answer is correct!")
  | Checked false correct_answer student_answer =>
      Ok (cross_mark ++ " Incorrect. Your answer: " ++ str_float student_answer
            ++ ", Correct answer: " ++ str_float correct_answer)
  | Invalid _ => Raise
  end.

(** *** The replies *)

Inductive solve_body : Type :=
| SolveFailure (error : string)
| SolveSuccess (expression : string) (answer : option float) (steps : list step).

Inductive check_body : Type :=
| CheckFailure (error : string)
| CheckSuccess (expression : string) (student_answer correct_answer : float)
               (is_correct : bool) (steps : list step) (feedback : string).

(** a JSON number: Python reads it as an [int] or as a [float] *)
Inductive number : Type :=
| NInt (z : Z)
| NFloat (f : float).

(** [float(student_answer)] *)
Definition float_of_number (n : number) : option float :=
  match n with
  | NInt z => float_of_int z
  | NFloat f => Some f
  end.

(** [data.get('expression', '')] *)
Definition get_expression (expression : option string) : string :=
  match expression with
  | Some e => e
  | None => EmptyString
  end.

(** [not expr] *)
Definition is_empty (s : string) : bool :=
  match s with
  | EmptyString => true
  | String _ _ => false
  end.

(** *** [api_solve] *)
Definition api_solve_fuel (fuel : nat) (expression : option string)
  : run (nat * solve_body) :=
  let expr := get_expression expression in
  if is_empty expr then Returns (400, SolveFailure "Expression is required")
  else
    then_run (get_correct_steps_fuel fuel expr) (fun steps =>
    match solve expr with
    | Ok answer => Returns (200, SolveSuccess expr answer steps)
    | _ => NotDescribed
    end).

(** *** [api_check_answer] *)
Definition api_check_answer_fuel (fuel : nat) (expression : option string)
           (answer : option number) : run (nat * check_body) :=
  let expr := get_expression expression in
  match answer with
  | None => Returns (400, CheckFailure "Expression and answer are required")
  | Some n =>
      if is_empty expr then Returns (400, CheckFailure "Expression and answer are required")
      else
        match float_of_number n with
        | None => Returns (400, CheckFailure "Invalid answer format. Please enter a number.")
        | Some student_answer =>
            match validate_answer expr student_answer with
            | Ok (Invalid error) => Returns (400, CheckFailure error)
            | Ok (Checked is_correct correct student) =>
                then_run (get_correct_steps_fuel fuel expr) (fun steps =>
                match generate_feedback (Checked is_correct correct student) with
                | Ok feedback =>
                    Returns (200, CheckSuccess expr student correct is_correct steps feedback)
                | _ => NotDescribed
                end)
            | _ => NotDescribed
            end
        end
  end.

End FlaskApp.

(* ------------------------------------------------------------------ *)
(** ** Vocabulary of the properties                                     *)
(* ------------------------------------------------------------------ *)

(** *** What a match of a pattern looks like *)

Module ReSpec.
Import Re.

(** [span r s pos caps s' pos' caps']: the pattern [r] can consume the
    text [s], which starts at offset [pos], down to [s'] at offset
    [pos'], turning the closed groups [caps] into [caps']. *)
Inductive span : regex -> string -> nat -> list capture ->
                 string -> nat -> list capture -> Prop :=
| span_one k c s pos caps :
    cls_ok k c = true ->
    span (One k) (String c s) pos caps s (S pos) caps
| span_opt_skip k s pos caps :
    span (Opt k) s pos caps s pos caps
| span_opt_take k c s pos caps :
    cls_ok k c = true ->
    span (Opt k) (String c s) pos caps s (S pos) caps
| span_star_stop k s pos caps :
    span (Star k) s pos caps s pos caps
| span_star_more k c s pos caps s' pos' :
    cls_ok k c = true ->
    span (Star k) s (S pos) caps s' pos' caps ->
    span (Star k) (String c s) pos caps s' pos' caps
| span_plus k c s pos caps s' pos' :
    cls_ok k c = true ->
    span (Star k) s (S pos) caps s' pos' caps ->
    span (Plus k) (String c s) pos caps s' pos' caps
| span_seq r1 r2 s pos caps s1 p1 c1 s2 p2 c2 :
    span r1 s pos caps s1 p1 c1 ->
    span r2 s1 p1 c1 s2 p2 c2 ->
    span (Seq r1 r2) s pos caps s2 p2 c2
| span_group n r s pos caps s' pos' caps' :
    span r s pos caps s' pos' caps' ->
    span (Group n r) s pos caps s' pos' ((n, (pos, pos')) :: caps').

(** the least number of characters a match of [r] holds *)
Fixpoint min_len (r : regex) : nat :=
  match r with
  | One _ => 1
  | Plus _ => 1
  | Opt _ => 0
  | Star _ => 0
  | Seq r1 r2 => min_len r1 + min_len r2
  | Group _ r1 => min_len r1
  end.

Fixpoint groupless (r : regex) : bool :=
  match r with
  | Seq r1 r2 => groupless r1 && groupless r2
  | Group _ _ => false
  | _ => true
  end.

(** a text made of digits *)
Fixpoint all_digits (s : string) : bool :=
  match s with
  | EmptyString => true
  | String c s' => PyStr.is_digit c && all_digits s'
  end.

(** the text of a fraction: nothing, or a point and digits *)
Definition is_fraction (s : string) : bool :=
  match s with
  | EmptyString => true
  | String c s' => Ascii.eqb c "." && all_digits s'
  end.

End ReSpec.

(** *** Texts without brackets and the two passes of the precedence law *)

Module Precedence.
Import PyVal PyEval.

(** A text without brackets: terms separated by [+] and [-], each term
    made of operands separated by [*] and [/], each operand a literal
    behind any number of signs ([true] is a minus sign). *)
Inductive mul_op : Type := Times | Over.
Inductive add_op : Type := Plus | Minus.

Record operand : Type := MkOperand {
  signs : list bool;
  literal : value
}.

Definition term : Type := (operand * list (mul_op * operand))%type.
Definition flat : Type := (term * list (add_op * term))%type.

(** *** The tokens of such a text *)

Definition sign_token (neg : bool) : token := if neg then TMinus else TPlus.

Definition operand_tokens (o : operand) : list token :=
  map sign_token (signs o) ++ [TNum (literal o)].

Definition mul_token (op : mul_op) : token :=
  match op with Times => TStar | Over => TSlash end.

Definition add_token (op : add_op) : token :=
  match op with Plus => TPlus | Minus => TMinus end.

Definition factors_tokens (l : list (mul_op * operand)) : list token :=
  flat_map (fun x => mul_token (fst x) :: operand_tokens (snd x)) l.

Definition term_tokens (t : term) : list token :=
  operand_tokens (fst t) ++ factors_tokens (snd t).

Definition terms_tokens (l : list (add_op * term)) : list token :=
  flat_map (fun x => add_token (fst x) :: term_tokens (snd x)) l.

Definition tokens_of (e : flat) : list token :=
  term_tokens (fst e) ++ terms_tokens (snd e).

(** *** The value the law speaks of, following the words of the
    specification: first every [*] and [/], from left to right, then
    every [+] and [-], from left to right *)

Definition apply (op : binop) (a b : res value) : res value :=
  x <- a ;; y <- b ;; binary op x y.

Definition mul_binop (op : mul_op) : binop :=
  match op with Times => Mul | Over => Div end.

Definition add_binop (op : add_op) : binop :=
  match op with Plus => Add | Minus => Sub end.

Definition operand_value (o : operand) : res value :=
  fold_right (fun (neg : bool) r => v <- r ;; if neg then negate v else plus v)
             (Ok (literal o)) (signs o).

(** a term: its operands multiplied and divided from left to right *)
Definition term_value (t : term) : res value :=
  fold_left (fun acc x => apply (mul_binop (fst x)) acc (operand_value (snd x)))
            (snd t) (operand_value (fst t)).

(** the first pass leaves the values of the terms and the signs between them *)
Definition first_pass (e : flat) : res value * list (add_op * res value) :=
  (term_value (fst e), map (fun x => (fst x, term_value (snd x))) (snd e)).

(** the second pass adds and subtracts them from left to right *)
Definition second_pass (p : res value * list (add_op * res value)) : res value :=
  fold_left (fun acc x => apply (add_binop (fst x)) acc (snd x)) (snd p) (fst p).

Definition two_pass (e : flat) : res value := second_pass (first_pass e).

(** what [solve] makes of a value or of a failure *)
Definition as_answer (r : res value) : res (option float) :=
  match r with
  | Ok v =>
      match to_float v with
      | Ok f => Ok (Some f)
      | Raise => Ok None
      | Outside => Outside
      end
  | Raise => Ok None
  | Outside => Outside
  end.

(** *** The tree the parser builds *)

Definition operand_tree (o : operand) : expr :=
  fold_right (fun (neg : bool) e => if neg then ENeg e else EPos e)
             (ENum (literal o)) (signs o).

Definition factors_tree (acc : expr) (l : list (mul_op * operand)) : expr :=
  fold_left (fun a x => EBin (mul_binop (fst x)) a (operand_tree (snd x))) l acc.

Definition term_tree (t : term) : expr := factors_tree (operand_tree (fst t)) (snd t).

Definition terms_tree (acc : expr) (l : list (add_op * term)) : expr :=
  fold_left (fun a x => EBin (add_binop (fst x)) a (term_tree (snd x))) l acc.

Definition flat_tree (e : flat) : expr := terms_tree (term_tree (fst e)) (snd e).

(** what may follow an operand, a term, a sum *)
Definition after_operand (ts : list token) : Prop :=
  match ts with
  | TPow :: _ => False
  | TLParen :: _ => False
  | _ => True
  end.

Definition after_term (ts : list token) : Prop :=
  match ts with
  | TStar :: _ => False
  | TSlash :: _ => False
  | _ => after_operand ts
  end.

Definition after_sum (ts : list token) : Prop :=
  match ts with
  | TPlus :: _ => False
  | TMinus :: _ => False
  | _ => after_term ts
  end.

End Precedence.

(** *** States and traces *)

Module TraceSpec.
Import PyStr PyNum PyVal BODMASSolver.

(** Every finished turn of a loop ends in [record_step]. *)
Definition records (body : state -> turn) : Prop :=
  forall st st', body st = Continue st' ->
    exists a b shown descr, st' = record_step st a b shown descr.

(** the numbering is in step with the list *)
Definition numbered (st : state) : Prop :=
  map step_no (steps st) = seq 0 (List.length (steps st)) /\
  step_num st = List.length (steps st).

(** the list starts with the step made of the text as given *)
Definition starts_with_original (expr : string) (st : state) : Prop :=
  exists rest, steps st = MkStep 0 expr "Original expression" :: rest.

(** the floats nearest to 4.00005 and to 4.001 *)
Definition answer_4_00005 : float := float_of_decimal false 400005 (-5).
Definition answer_4_001 : float := float_of_decimal false 4001 (-3).

(** no loop has anything left to do on the working text [s] *)
Definition reduced (s : string) : Prop :=
  forall l n,
    bracket_turn (MkState l n s) = Exit /\ exponent_turn (MkState l n s) = Exit /\
    muldiv_turn (MkState l n s) = Exit /\ addsub_turn (MkState l n s) = Exit.

(** a text of blanks and tabs only *)
Fixpoint all_blank (s : string) : bool :=
  match s with
  | EmptyString => true
  | String c s' => (Ascii.eqb c " " || Ascii.eqb c "009") && all_blank s'
  end.

End TraceSpec.

(** *** Further vocabulary: characters of printed numbers, counts of
    operators, phases of a trace *)

Module MoreSpec.
Import PyStr PyNum PyVal PyEval BODMASSolver FlaskApp.

(** the characters [str] uses for a number: digits, point, signs, the
    exponent mark and the letters of [inf] and [nan] *)
Definition number_char (c : ascii) : bool :=
  is_digit c || Re.mem c ["."; "-"; "+"; "e"; "i"; "n"; "f"; "a"]%char.

Fixpoint number_text (s : string) : bool :=
  match s with
  | EmptyString => true
  | String c s' => number_char c && number_text s'
  end.

(** how many [*] and [/] a text holds *)
Definition muldiv_count (s : string) : nat := count_char "*" s + count_char "/" s.

(** a number, not a tuple *)
Definition is_number (v : value) : bool :=
  match v with
  | VTuple _ => false
  | _ => true
  end.

(** a token that is neither a comma nor an opening bracket (and, for a
    literal, holds a number) *)
Definition plain_token (t : token) : bool :=
  match t with
  | TComma => false
  | TLParen => false
  | TNum v => is_number v
  | _ => true
  end.

(** a tree without tuples *)
Fixpoint tuple_free (e : expr) : bool :=
  match e with
  | ENum v => is_number v
  | ENeg e1 => tuple_free e1
  | EPos e1 => tuple_free e1
  | EBin _ e1 e2 => tuple_free e1 && tuple_free e2
  | ETuple _ => false
  end.

(** the steps of one phase: their descriptions start with [label] *)
Definition phase (label : string) (l : list step) : Prop :=
  Forall (fun x => starts_with label (description x) = true) l.

(** a working text on which no loop has anything to look for *)
Definition operator_free (s : string) : Prop :=
  count_char "(" s = 0 /\ muldiv_count s = 0 /\
  count_char "+" (drop 1 s) = 0 /\ count_char "-" (drop 1 s) = 0.

(** two states that differ at most in their first step *)
Definition same_but_first (st1 st2 : state) : Prop :=
  current_expr st1 = current_expr st2 /\ step_num st1 = step_num st2 /\
  exists h1 h2 rest, steps st1 = h1 :: rest /\ steps st2 = h2 :: rest.

(** two runs that end alike, with the same steps behind the first *)
Definition same_steps_but_first (r1 r2 : run (list step)) : Prop :=
  match r1, r2 with
  | Returns t1, Returns t2 => tl t1 = tl t2
  | NotDescribed, NotDescribed => True
  | OutOfFuel, OutOfFuel => True
  | _, _ => False
  end.

(** *** Texts without brackets: numbers only, divisions by zero, integers *)

Definition operands_of_term (t : Precedence.term) : list Precedence.operand :=
  fst t :: map snd (snd t).

Definition terms_of (e : Precedence.flat) : list Precedence.term :=
  fst e :: map snd (snd e).

(** every literal is a number *)
Definition numeric (e : Precedence.flat) : bool :=
  forallb (fun t => forallb (fun o => is_number (Precedence.literal o)) (operands_of_term t))
          (terms_of e).

(** a division whose divisor is a literal zero, signed or not *)
Definition zero_division (x : Precedence.mul_op * Precedence.operand) : bool :=
  match fst x with
  | Precedence.Over => is_zero (Precedence.literal (snd x))
  | Precedence.Times => false
  end.

Definition divides_by_zero (e : Precedence.flat) : bool :=
  existsb (fun t => existsb zero_division (snd t)) (terms_of e).

(** every literal is an [int] and no term has a division *)
Definition integral (e : Precedence.flat) : bool :=
  forallb (fun t =>
             forallb (fun o => match Precedence.literal o with VInt _ => true | _ => false end)
                     (operands_of_term t) &&
             forallb (fun x => match fst x with Precedence.Times => true | _ => false end)
                     (snd t))
          (terms_of e).

(** the integer such a text denotes *)
Definition int_operand (o : Precedence.operand) : Z :=
  fold_right (fun (neg : bool) z => if neg then Z.opp z else z)
             (match Precedence.literal o with VInt z => z | _ => 0%Z end)
             (Precedence.signs o).

Definition int_term (t : Precedence.term) : Z :=
  fold_left (fun acc x => Z.mul acc (int_operand (snd x))) (snd t) (int_operand (fst t)).

Definition int_value (e : Precedence.flat) : Z :=
  fold_left (fun acc x =>
               match fst x with
               | Precedence.Plus => Z.add acc (int_term (snd x))
               | Precedence.Minus => Z.sub acc (int_term (snd x))
               end)
            (snd e) (int_term (fst e)).

(** a number or a failure, never something left undescribed *)
Definition settled (r : res value) : Prop :=
  r = Raise \/ exists v, r = Ok v /\ is_number v = true.

(** the text of the last step of the trace of a sample question *)
Definition last_expression (fuel : nat) (q : question) : option string :=
  match get_correct_steps_fuel fuel (q_question q) with
  | Returns trace =>
      match rev trace with
      | x :: _ => Some (expression x)
      | [] => None
      end
  | _ => None
  end.

(** ... and whether it reads as the listed answer *)
Definition ends_in_answer (fuel : nat) (q : question) : bool :=
  match last_expression fuel q with
  | Some s =>
      match float_of_str s, float_of_int (q_correct_answer q) with
      | Some f, Some c => (f =? c)%float
      | _, _ => false
      end
  | None => false
  end.

(** every character of [s] is in the set [k] *)
Fixpoint all_cls (k : Re.cls) (s : string) : bool :=
  match s with
  | EmptyString => true
  | String c s' => Re.cls_ok k c && all_cls k s'
  end.

(** [rest] holds no more of any character than [s] *)
Definition within (rest s : string) : Prop :=
  forall c, count_char c rest <= count_char c s.

(** a parse result without tuples, with plain tokens left *)
Definition plain_result (r : pres) : Prop :=
  forall e rest, r = Ok (e, rest) ->
                 tuple_free e = true /\ forallb plain_token rest = true.

(** a loop body looks at the working text only *)
Definition uniform (body : state -> turn) : Prop :=
  forall st1 st2,
    current_expr st1 = current_expr st2 ->
    match body st1, body st2 with
    | Continue s1, Continue s2 =>
        exists a b shown descr,
          s1 = record_step st1 a b shown descr /\ s2 = record_step st2 a b shown descr
    | Break, Break => True
    | Exit, Exit => True
    | Unknown, Unknown => True
    | _, _ => False
    end.

End MoreSpec.

(* ------------------------------------------------------------------ *)
(** ** Properties of the trace                                          *)
(* ------------------------------------------------------------------ *)

Import PyStr PyNum PyVal BODMASSolver TraceSpec.

Ltac split_turn H :=
  repeat match type of H with
         | context [match ?x with _ => _ end] => destruct x eqn:?
         | context [if ?x then _ else _] => destruct x eqn:?
         end;
  try discriminate H.

Lemma bracket_turn_records : records bracket_turn.
Proof.
  intros st st' H. unfold bracket_turn in H.
  split_turn H; injection H as <-; eauto.
Qed.

Lemma exponent_turn_records : records exponent_turn.
Proof.
  intros st st' H. unfold exponent_turn in H.
  split_turn H; injection H as <-; eauto.
Qed.

Lemma muldiv_turn_records : records muldiv_turn.
Proof.
  intros st st' H. unfold muldiv_turn in H.
  split_turn H; injection H as <-; eauto.
Qed.

Lemma addsub_turn_records : records addsub_turn.
Proof.
  intros st st' H. unfold addsub_turn in H.
  split_turn H; injection H as <-; eauto.
Qed.

(** A property of the state that [record_step] keeps is kept by a loop. *)
Lemma while_keeps (P : state -> Prop) (body : state -> turn) :
  records body ->
  (forall st a b shown descr, P st -> P (record_step st a b shown descr)) ->
  forall fuel st st', P st -> while body fuel st = Returns st' -> P st'.
Proof.
  intros Hrec Hkeep fuel. induction fuel as [|fuel IH]; intros st st' HP H.
  - simpl in H. destruct (body st) eqn:E; try discriminate;
      injection H as <-; exact HP.
  - simpl in H. destruct (body st) as [st1| | |] eqn:E; try discriminate.
    + destruct (Hrec _ _ E) as (a & b & shown & descr & ->).
      eapply IH; [apply Hkeep; exact HP | exact H].
    + injection H as <-; exact HP.
    + injection H as <-; exact HP.
Qed.

(** ... and so by the whole function. *)
Lemma get_correct_steps_keeps (P : state -> Prop) :
  (forall st a b shown descr, P st -> P (record_step st a b shown descr)) ->
  forall fuel expr trace,
    P (initial expr) ->
    get_correct_steps_fuel fuel expr = Returns trace ->
    exists st, P st /\ steps st = trace.
Proof.
  intros Hkeep fuel expr trace H0 H. unfold get_correct_steps_fuel in H.
  destruct (while bracket_turn fuel (initial expr)) as [st1| |] eqn:E1; try discriminate.
  simpl in H.
  destruct (while exponent_turn fuel st1) as [st2| |] eqn:E2; try discriminate.
  simpl in H.
  destruct (while muldiv_turn fuel st2) as [st3| |] eqn:E3; try discriminate.
  simpl in H.
  destruct (while addsub_turn fuel st3) as [st4| |] eqn:E4; try discriminate.
  simpl in H. injection H as <-.
  exists st4. split; [|reflexivity].
  eapply (while_keeps P _ addsub_turn_records Hkeep); [|exact E4].
  eapply (while_keeps P _ muldiv_turn_records Hkeep); [|exact E3].
  eapply (while_keeps P _ exponent_turn_records Hkeep); [|exact E2].
  eapply (while_keeps P _ bracket_turn_records Hkeep); [|exact E1].
  exact H0.
Qed.

Lemma record_step_numbered st a b shown descr :
  numbered st -> numbered (record_step st a b shown descr).
Proof.
  intros [Hm Hn]. unfold numbered, record_step; simpl.
  rewrite map_app, length_app, Hm, Hn; simpl.
  rewrite Nat.add_1_r, seq_S. simpl. auto.
Qed.

(** C8: in a trace that [get_correct_steps] returns, the step numbers are
    0, 1, 2, ... in this order, without gap or repetition. *)
Theorem trace_indices_consecutive :
  forall fuel expr trace,
    get_correct_steps_fuel fuel expr = Returns trace ->
    map step_no trace = seq 0 (List.length trace).
Proof.
  intros fuel expr trace H.
  destruct (get_correct_steps_keeps numbered record_step_numbered fuel expr trace)
    as (st & [Hm _] & <-); [|exact H|exact Hm].
  split; reflexivity.
Qed.

Lemma trace_indices_consecutive_witness :
  get_correct_steps_fuel 5 "(10 - 4) * 2 + 3" =
    Returns [MkStep 0 "(10 - 4) * 2 + 3" "Original expression";
             MkStep 1 "6*2+3" "Brackets: (10-4) = 6";
             MkStep 2 "12.0+3" "Division/Multiplication: 6*2 = 12.0";
             MkStep 3 "15.0" "Addition/Subtraction: 2.0+3 = 5.0"] /\
  map step_no [MkStep 0 "(10 - 4) * 2 + 3" "Original expression";
               MkStep 1 "6*2+3" "Brackets: (10-4) = 6";
               MkStep 2 "12.0+3" "Division/Multiplication: 6*2 = 12.0";
               MkStep 3 "15.0" "Addition/Subtraction: 2.0+3 = 5.0"] = [0; 1; 2; 3]%nat.
Proof.
  split.
  - vm_compute. reflexivity.
  - apply (trace_indices_consecutive 5 "(10 - 4) * 2 + 3"). vm_compute. reflexivity.
Defined.

Lemma record_step_original expr st a b shown descr :
  starts_with_original expr st ->
  starts_with_original expr (record_step st a b shown descr).
Proof.
  intros [rest H]. unfold starts_with_original, record_step; simpl.
  rewrite H. simpl. eauto.
Qed.

(** C9: the first step of a returned trace has number 0, the text exactly
    as it was given (blanks included) and the description
    "Original expression". *)
Theorem first_step_is_original :
  forall fuel expr trace,
    get_correct_steps_fuel fuel expr = Returns trace ->
    exists rest, trace = MkStep 0 expr "Original expression" :: rest.
Proof.
  intros fuel expr trace H.
  destruct (get_correct_steps_keeps (starts_with_original expr)
              (record_step_original expr) fuel expr trace)
    as (st & [rest Hr] & <-); [|exact H|eauto].
  exists []. reflexivity.
Qed.

Lemma first_step_is_original_witness :
  exists rest,
    [MkStep 0 "2 + 3 * 4" "Original expression";
     MkStep 1 "2+12.0" "Division/Multiplication: 3*4 = 12.0"] =
    MkStep 0 "2 + 3 * 4" "Original expression" :: rest.
Proof.
  apply (first_step_is_original 5 "2 + 3 * 4"). vm_compute. reflexivity.
Defined.

(* ------------------------------------------------------------------ *)
(** ** [solve] and [validate_answer]                                    *)
(* ------------------------------------------------------------------ *)

(** Dividing by an [int] or [float] zero raises, whatever is divided. *)
Lemma binary_div_zero (a : value) :
  binary Div a (VInt 0) = Raise /\ binary Div a (VFloat zero) = Raise.
Proof.
  destruct a as [z|f|vs]; split; try reflexivity.
  simpl. unfold on_floats. simpl. destruct (float_of_int z); reflexivity.
Qed.

(** C1: [solve] on "5 / 0" does not return infinity: [eval] raises on a
    zero divisor and [solve] returns [None].  The table of operations of
    the same class gives infinity for this division, and so does the step
    trace of the same text. *)
Theorem solve_division_by_zero_is_none :
  solve "5 / 0" = Ok None /\
  (forall a, binary Div a (VInt 0) = Raise) /\
  (exists f, lookup "/" operations = Some (2, f) /\
             f (VInt 5) (VInt 0) = Ok (VFloat infinity)) /\
  get_correct_steps_fuel 3 "5 / 0" =
    Returns [MkStep 0 "5 / 0" "Original expression";
             MkStep 1 "inf" "Division/Multiplication: 5/0 = inf"].
Proof.
  split; [vm_compute; reflexivity|].
  split; [intro a; apply binary_div_zero|].
  split; [eexists; split; reflexivity|].
  vm_compute; reflexivity.
Qed.

(** [solve] returns [None] exactly when [eval] raises or [float] rejects
    the value. *)
Lemma solve_none_iff (s : string) :
  solve s = Ok None <->
  PyEval.eval s = Raise \/ exists v, PyEval.eval s = Ok v /\ to_float v = Raise.
Proof.
  unfold solve. split.
  - destruct (PyEval.eval s) as [v| |] eqn:E; try discriminate; auto.
    destruct (to_float v) eqn:F; try discriminate. right. eauto.
  - intros [H | (v & H & F)]; rewrite H; [reflexivity|]. rewrite F. reflexivity.
Qed.

(** a text of blanks and tabs has no token *)
Lemma lex_blank (s : string) :
  all_blank s = true ->
  forall fuel, String.length s < fuel -> PyEval.tokenize fuel s = Ok [].
Proof.
  induction s as [|c s IH]; intros H fuel Hf.
  - destruct fuel; [inversion Hf | reflexivity].
  - destruct fuel as [|fuel]; [inversion Hf|].
    simpl in H. apply andb_true_iff in H as [Hc Hs].
    simpl. rewrite Hc. apply IH; [exact Hs | simpl in Hf; lia].
Qed.



(** C6: when [solve] gives [c], [validate_answer] reports the answer [a]
    correct exactly when [abs (a - c) < 0.0001] in float arithmetic, and
    returns [c] and [a]; against "2+2", 4.00005 is correct and 4.001 is
    not. *)
Theorem validate_answer_tolerance :
  (forall expr a c,
     solve expr = Ok (Some c) ->
     validate_answer expr a = Ok (Checked (abs (a - c) <? tolerance)%float c a)) /\
  float_of_str "4.00005" = Some answer_4_00005 /\
  float_of_str "4.001" = Some answer_4_001 /\
  float_of_str "0.0001" = Some tolerance /\
  validate_answer "2+2" answer_4_00005 = Ok (Checked true 4%float answer_4_00005) /\
  validate_answer "2+2" answer_4_001 = Ok (Checked false 4%float answer_4_001).
Proof.
  split.
  - intros expr a c H. unfold validate_answer. rewrite H. reflexivity.
  - repeat split; vm_compute; reflexivity.
Qed.

Lemma validate_answer_tolerance_witness :
  validate_answer "2 + 3 * 4" 14%float = Ok (Checked true 14%float 14%float).
Proof.
  apply (proj1 validate_answer_tolerance "2 + 3 * 4" 14%float 14%float).
  vm_compute. reflexivity.
Defined.

(* ------------------------------------------------------------------ *)
(** ** The trace against [solve]                                        *)
(* ------------------------------------------------------------------ *)

(** C3: on "12+30" every loop runs until its condition is false, the last
    step holds the literal "132.0", and [solve] gives 42.0: the addition
    loop searches the text from offset 1 on, so it adds 2 and 30 and puts
    the sum behind the leading 1. *)
Theorem last_step_differs_from_solve :
  get_correct_steps_fuel 2 "12+30" =
    Returns [MkStep 0 "12+30" "Original expression";
             MkStep 1 "132.0" "Addition/Subtraction: 2+30 = 32.0"] /\
  reduced "132.0" /\
  float_of_str "132.0" = Some 132%float /\
  solve "12+30" = Ok (Some 42%float) /\
  (abs (132 - 42) <? tolerance)%float = false.
Proof.
  split; [vm_compute; reflexivity|].
  split; [intros l n; repeat split|].
  repeat split; vm_compute; reflexivity.
Qed.

(** *** A text on which the bracket loop never ends *)

Lemma bracket_turn_tuple (st : state) :
  current_expr st = "(1, 2)" ->
  exists st', bracket_turn st = Continue st' /\ current_expr st' = "(1, 2)".
Proof.
  intro H. unfold bracket_turn. rewrite H.
  change (contains_char "(" "(1, 2)") with true. cbv iota.
  replace (Re.search Re.bracket_re "(1, 2)") with (Some (Re.MkMatch 0 6 []))
    by (vm_compute; reflexivity).
  cbv zeta.
  replace (Re.group "(1, 2)" (Re.MkMatch 0 6 []) 0) with "(1, 2)"
    by (vm_compute; reflexivity).
  replace (slice 1 (String.length "(1, 2)" - 1) "(1, 2)") with "1, 2"
    by (vm_compute; reflexivity).
  replace (PyEval.eval "1, 2") with (Ok (VTuple [VInt 1; VInt 2]))
    by (vm_compute; reflexivity).
  eexists. split; [reflexivity|].
  unfold record_step. simpl. rewrite H. reflexivity.
Qed.

Lemma while_bracket_tuple (fuel : nat) :
  forall st, current_expr st = "(1, 2)" -> while bracket_turn fuel st = OutOfFuel.
Proof.
  induction fuel as [|fuel IH]; intros st H;
    destruct (bracket_turn_tuple st H) as (st' & E & H'); simpl; rewrite E.
  - reflexivity.
  - apply IH. exact H'.
Qed.

Lemma bracket_turn_first :
  bracket_turn (initial "(1,2)") =
    Continue (MkState [MkStep 0 "(1,2)" "Original expression";
                       MkStep 1 "(1, 2)" "Brackets: (1,2) = (1, 2)"] 2 "(1, 2)").
Proof. vm_compute. reflexivity. Qed.

Lemma run_on_tuple (fuel : nat) : get_correct_steps_fuel fuel "(1,2)" = OutOfFuel.
Proof.
  unfold get_correct_steps_fuel.
  assert (E : while bracket_turn fuel (initial "(1,2)") = OutOfFuel).
  { destruct fuel as [|fuel]; [vm_compute; reflexivity|].
    change (while bracket_turn (S fuel) (initial "(1,2)"))
      with (match bracket_turn (initial "(1,2)") with
            | Continue st' => while bracket_turn fuel st'
            | Break => Returns (initial "(1,2)")
            | Exit => Returns (initial "(1,2)")
            | Unknown => NotDescribed
            end).
    rewrite bracket_turn_first.
    apply while_bracket_tuple. reflexivity. }
  rewrite E. reflexivity.
Qed.

(** so no trace is ever returned for this text *)
Corollary no_trace_for_tuple (trace : list step) : ~ get_correct_steps "(1,2)" trace.
Proof.
  intros [fuel E]. rewrite run_on_tuple in E. discriminate.
Qed.

(** C5: on "(1,2)" the call does not return.  The text between the
    brackets evaluates to a tuple, whose text is "(1, 2)": every turn of
    the bracket loop records a step and leaves a bracket in the working
    text, so the loop is still running after any number of turns. *)
Theorem get_correct_steps_never_returns :
  bracket_turn (initial "(1,2)") =
    Continue (MkState [MkStep 0 "(1,2)" "Original expression";
                       MkStep 1 "(1, 2)" "Brackets: (1,2) = (1, 2)"] 2 "(1, 2)") /\
  (forall st, current_expr st = "(1, 2)" ->
     exists st', bracket_turn st = Continue st' /\ current_expr st' = "(1, 2)") /\
  forall fuel, get_correct_steps_fuel fuel "(1,2)" = OutOfFuel.
Proof.
  split; [exact bracket_turn_first|].
  split; [exact bracket_turn_tuple | exact run_on_tuple].
Qed.

(* ------------------------------------------------------------------ *)
(** ** What a match of a pattern looks like                             *)
(* ------------------------------------------------------------------ *)

Import Re ReSpec.

Lemma drop_drop (a : nat) : forall s b, PyStr.drop b (PyStr.drop a s) = PyStr.drop (b + a) s.
Proof.
  induction a as [|a IH]; intros s b.
  - rewrite Nat.add_0_r. destruct s; reflexivity.
  - rewrite Nat.add_succ_r. destruct s as [|c s]; simpl.
    + destruct b; reflexivity.
    + apply IH.
Qed.

Lemma star_m_span {A : Type} (k : cls) (kont : @cont A) :
  forall s pos caps x,
    star_m k s pos caps kont = Some x ->
    exists s' pos', span (Star k) s pos caps s' pos' caps /\ kont s' pos' caps = Some x.
Proof.
  induction s as [|c s IH]; intros pos caps x H; simpl in H.
  - exists EmptyString, pos. split; [constructor | exact H].
  - destruct (cls_ok k c) eqn:Ec.
    + destruct (star_m k s (S pos) caps kont) as [y|] eqn:E.
      * injection H as ->. destruct (IH _ _ _ E) as (s' & pos' & Hs & Hk).
        exists s', pos'. split; [econstructor; eassumption | exact Hk].
      * exists (String c s), pos. split; [constructor | exact H].
    + exists (String c s), pos. split; [constructor | exact H].
Qed.

(** Whatever the matcher returns comes from its continuation, called at
    the end of a span of the pattern. *)
Lemma rmatch_span {A : Type} (r : regex) :
  forall s pos caps (kont : @cont A) x,
    rmatch r s pos caps kont = Some x ->
    exists s' pos' caps',
      span r s pos caps s' pos' caps' /\ kont s' pos' caps' = Some x.
Proof.
  induction r as [k|k|k|k|r1 IH1 r2 IH2|n r IH]; intros s pos caps kont x H; simpl in H.
  - destruct s as [|c s]; [discriminate|].
    destruct (cls_ok k c) eqn:Ec; [|discriminate].
    exists s, (S pos), caps. split; [constructor; exact Ec | exact H].
  - destruct s as [|c s].
    + exists EmptyString, pos, caps. split; [constructor | exact H].
    + destruct (cls_ok k c) eqn:Ec.
      * destruct (kont s (S pos) caps) as [y|] eqn:E.
        -- injection H as ->. exists s, (S pos), caps.
           split; [apply span_opt_take; exact Ec | exact E].
        -- exists (String c s), pos, caps. split; [constructor | exact H].
      * exists (String c s), pos, caps. split; [constructor | exact H].
  - destruct (star_m_span k kont _ _ _ _ H) as (s' & pos' & Hs & Hk).
    exists s', pos', caps. auto.
  - destruct s as [|c s]; [discriminate|].
    destruct (cls_ok k c) eqn:Ec; [|discriminate].
    destruct (star_m_span k kont _ _ _ _ H) as (s' & pos' & Hs & Hk).
    exists s', pos', caps. split; [econstructor; eassumption | exact Hk].
  - destruct (IH1 _ _ _ _ _ H) as (s1 & p1 & c1 & Hs1 & H1).
    destruct (IH2 _ _ _ _ _ H1) as (s2 & p2 & c2 & Hs2 & H2).
    exists s2, p2, c2. split; [econstructor; eassumption | exact H2].
  - destruct (IH _ _ _ _ _ H) as (s' & pos' & caps' & Hs & Hk).
    exists s', pos', ((n, (pos, pos')) :: caps'). split; [constructor; exact Hs | exact Hk].
Qed.

Lemma match_at_span (r : regex) (s : string) (pos : nat) (m : rmatch_obj) :
  match_at r s pos = Some m ->
  exists s', span r s pos [] s' (m_end m) (m_caps m) /\ m_start m = pos.
Proof.
  intro H. unfold match_at in H.
  destruct (rmatch_span r _ _ _ _ _ H) as (s' & pos' & caps' & Hs & Hk).
  injection Hk as <-. simpl. eauto.
Qed.

(** A span moves forward by the characters it consumes. *)
Lemma span_offsets r s pos caps s' pos' caps' :
  span r s pos caps s' pos' caps' ->
  pos + min_len r <= pos' /\ s' = PyStr.drop (pos' - pos) s.
Proof.
  induction 1; cbn [min_len].
  - split; [lia|]. replace (S pos - pos) with 1 by lia. reflexivity.
  - split; [lia|]. rewrite Nat.sub_diag. destruct s; reflexivity.
  - split; [lia|]. replace (S pos - pos) with 1 by lia. reflexivity.
  - split; [lia|]. rewrite Nat.sub_diag. destruct s; reflexivity.
  - destruct IHspan as [Hle ->]. cbn [min_len] in Hle. split; [lia|].
    replace (pos' - pos) with (S (pos' - S pos)) by lia. reflexivity.
  - destruct IHspan as [Hle ->]. cbn [min_len] in Hle. split; [lia|].
    replace (pos' - pos) with (S (pos' - S pos)) by lia. reflexivity.
  - destruct IHspan1 as [Hle1 ->], IHspan2 as [Hle2 ->]. split; [lia|].
    replace (p2 - pos) with ((p2 - p1) + (p1 - pos)) by lia.
    apply drop_drop.
  - exact IHspan.
Qed.

Lemma span_groupless r s pos caps s' pos' caps' :
  span r s pos caps s' pos' caps' -> groupless r = true -> caps' = caps.
Proof.
  induction 1; simpl; intro G; try reflexivity; try discriminate.
  apply andb_true_iff in G as [G1 G2].
  rewrite (IHspan2 G2). apply IHspan1. exact G1.
Qed.

(** [search_from] returns the match of the first offset that has one. *)
Lemma search_from_leftmost (r : regex) :
  forall s pos m,
    search_from r s pos = Some m ->
    exists j,
      m_start m = pos + j /\
      match_at r (PyStr.drop j s) (pos + j) = Some m /\
      forall i, i < j -> match_at r (PyStr.drop i s) (pos + i) = None.
Proof.
  induction s as [|c s IH]; intros pos m H; simpl in H.
  - destruct (match_at r EmptyString pos) as [m'|] eqn:E; [|discriminate].
    injection H as ->. exists 0. rewrite Nat.add_0_r.
    destruct (match_at_span _ _ _ _ E) as (_ & _ & Hst).
    repeat split; [exact Hst | exact E | intros i Hi; lia].
  - destruct (match_at r (String c s) pos) as [m'|] eqn:E.
    + injection H as ->. exists 0. rewrite Nat.add_0_r.
      destruct (match_at_span _ _ _ _ E) as (_ & _ & Hst).
      repeat split; [exact Hst | exact E | intros i Hi; lia].
    + destruct (IH _ _ H) as (j & Hst & Hm & Hno).
      exists (S j). rewrite Nat.add_succ_r. simpl.
      repeat split; [exact Hst | exact Hm |].
      intros [|i] Hi.
      * rewrite Nat.add_0_r. exact E.
      * rewrite Nat.add_succ_r. apply (Hno i). lia.
Qed.

(** The shape of a match of [binop_re]: a first operand of at least one
    character, the operator at an offset [a] behind it, and the three
    groups. *)
Lemma binop_span (ops : list ascii) s pos s' pos' caps' :
  span (binop_re ops) s pos [] s' pos' caps' ->
  exists p1 a p3 c rest,
    pos < p1 /\ p1 <= a /\ S a <= p3 /\ p3 < pos' /\
    caps' = [(3, (p3, pos')); (2, (a, S a)); (1, (pos, p1))] /\
    PyStr.drop (a - pos) s = String c rest /\ mem c ops = true /\
    exists s1, span signed_re s pos [] s1 p1 [].
Proof.
  intro H. unfold binop_re in H.
  inversion H as [| | | | | |? ? ? ? ? s1 p1 c1 ? ? ? Hg1 H1|]; subst; clear H.
  inversion Hg1 as [| | | | | | |? ? ? ? ? ? ? ? Hn1]; subst.
  inversion H1 as [| | | | | |? ? ? ? ? s2 p2 c2 ? ? ? Hsp1 H2|]; subst; clear H1.
  inversion H2 as [| | | | | |? ? ? ? ? s3 p3 c3 ? ? ? Hg2 H3|]; subst; clear H2.
  inversion Hg2 as [| | | | | | |? ? ? ? ? ? ? ? Hop]; subst.
  inversion H3 as [| | | | | |? ? ? ? ? s4 p4 c4 ? ? ? Hsp2 Hg3|]; subst; clear H3.
  inversion Hg3 as [| | | | | | |? ? ? ? ? ? ? ? Hn3]; subst.
  pose proof (span_groupless _ _ _ _ _ _ _ Hn1 eq_refl) as ->.
  pose proof (span_groupless _ _ _ _ _ _ _ Hsp1 eq_refl) as ->.
  pose proof (span_groupless _ _ _ _ _ _ _ Hsp2 eq_refl) as E2.
  pose proof (span_groupless _ _ _ _ _ _ _ Hn3 eq_refl) as E3.
  destruct (span_offsets _ _ _ _ _ _ _ Hn1) as [L1 D1]. simpl in L1.
  destruct (span_offsets _ _ _ _ _ _ _ Hsp1) as [L2 D2]. simpl in L2.
  destruct (span_offsets _ _ _ _ _ _ _ Hsp2) as [L4 _]. simpl in L4.
  destruct (span_offsets _ _ _ _ _ _ _ Hn3) as [L5 _]. simpl in L5.
  assert (D : PyStr.drop (p2 - p1) (PyStr.drop (p1 - pos) s) = PyStr.drop (p2 - pos) s)
    by (rewrite drop_drop; f_equal; lia).
  rewrite D2, D1, D in Hop.
  inversion Hop; subst.
  match goal with
  | Hc : cls_ok (AnyOf ops) ?c = true, Hd : String ?c ?r = PyStr.drop _ _ |- _ =>
      exists p1, p2, p4, c, r;
      split; [lia|]; split; [lia|]; split; [lia|]; split; [lia|];
      split; [reflexivity|]; split; [symmetry; exact Hd|]; split; [exact Hc|];
      eexists; exact Hn1
  end.
Qed.

(* ------------------------------------------------------------------ *)
(** ** The scan of the addition and subtraction loop                    *)
(* ------------------------------------------------------------------ *)

(** What [search] finds for a pattern of the shape [binop_re]: the
    operator sits at an offset [a] behind the start of the match, it is
    one of [ops], and no earlier offset has a match. *)
Lemma search_binop (ops : list ascii) (s : string) (m : rmatch_obj) :
  search (binop_re ops) s = Some m ->
  exists p1 a p3 c rest,
    m_start m < p1 /\ p1 <= a /\ S a <= p3 /\ p3 < m_end m /\
    m_caps m = [(3, (p3, m_end m)); (2, (a, S a)); (1, (m_start m, p1))] /\
    drop a s = String c rest /\ mem c ops = true /\
    (forall i, i < m_start m -> match_at (binop_re ops) (drop i s) i = None) /\
    exists s1, span signed_re (drop (m_start m) s) (m_start m) [] s1 p1 [].
Proof.
  intro H. unfold search in H.
  destruct (search_from_leftmost _ _ _ _ H) as (j & Hj & Hm & Hno). simpl in Hj, Hm, Hno.
  destruct (match_at_span _ _ _ _ Hm) as (s' & Hs & _).
  destruct (binop_span _ _ _ _ _ _ Hs)
    as (p1 & a & p3 & c & rest & L1 & L2 & L3 & L4 & Hc & Hd & Hmem & Hg).
  exists p1, a, p3, c, rest. rewrite Hj.
  repeat split; try lia; try assumption.
  rewrite drop_drop in Hd. replace (a - j + j) with a in Hd by lia. exact Hd.
Qed.

Lemma mem_plus_minus (c : ascii) :
  mem c ["+"; "-"]%char = true -> c = "+"%char \/ c = "-"%char.
Proof.
  unfold mem; simpl. intro H.
  apply orb_true_iff in H as [H|H].
  - left. apply Ascii.eqb_eq. exact H.
  - apply orb_true_iff in H as [H|H]; [|discriminate].
    right. apply Ascii.eqb_eq. exact H.
Qed.



(* ------------------------------------------------------------------ *)
(** ** Signs in front of the working text                               *)
(* ------------------------------------------------------------------ *)

Lemma star_m_complete {A : Type} (k : cls) (kont : @cont A) :
  forall s pos caps,
    star_m k s pos caps kont = None ->
    forall s' pos' caps', span (Star k) s pos caps s' pos' caps' -> kont s' pos' caps' = None.
Proof.
  induction s as [|c s IH]; intros pos caps H s' pos' caps' Hs; simpl in H.
  - inversion Hs; subst. exact H.
  - destruct (cls_ok k c) eqn:Ec.
    + destruct (star_m k s (S pos) caps kont) eqn:E; [discriminate|].
      inversion Hs; subst; [exact H|]. eapply IH; eassumption.
    + inversion Hs; subst; [exact H|]. congruence.
Qed.

(** The matcher fails only when no span of the pattern satisfies the
    continuation. *)
Lemma rmatch_complete {A : Type} (r : regex) :
  forall s pos caps (kont : @cont A),
    rmatch r s pos caps kont = None ->
    forall s' pos' caps', span r s pos caps s' pos' caps' -> kont s' pos' caps' = None.
Proof.
  induction r as [k|k|k|k|r1 IH1 r2 IH2|n r IH];
    intros s pos caps kont H s' pos' caps' Hs; simpl in H; inversion Hs; subst;
    try match goal with Hc : cls_ok _ _ = true |- _ => rewrite Hc in H end.
  - exact H.
  - destruct s' as [|c s']; [exact H|].
    destruct (cls_ok k c); [|exact H].
    destruct (kont s' (S pos') caps'); [discriminate | exact H].
  - destruct (kont s' (S pos) caps'); [discriminate | reflexivity].
  - eapply star_m_complete; eassumption.
  - eapply star_m_complete; eassumption.
  - eapply star_m_complete; eassumption.
  - eapply IH2; [|eassumption].
    eapply (IH1 _ _ _ _ H); eassumption.
  - match goal with
    | Hi : span r _ _ _ _ _ _ |- _ => exact (IH _ _ _ _ H _ _ _ Hi)
    end.
Qed.

Lemma search_at_zero (r : regex) (s s' : string) (pos' : nat) (caps' : list capture) :
  span r s 0 [] s' pos' caps' ->
  exists m, search r s = Some m /\ m_start m = 0.
Proof.
  intro Hs. unfold search.
  destruct (match_at r s 0) as [m|] eqn:E.
  - exists m. split.
    + destruct s; simpl; rewrite E; reflexivity.
    + destruct (match_at_span _ _ _ _ E) as (_ & _ & H). exact H.
  - unfold match_at in E.
    pose proof (rmatch_complete r _ _ _ _ E _ _ _ Hs) as F. discriminate.
Qed.

Lemma span_digits (ds : string) :
  forall t pos caps,
    all_digits ds = true ->
    span (Star Digit) (ds ++ t) pos caps t (pos + String.length ds) caps.
Proof.
  induction ds as [|c ds IH]; intros t pos caps H; simpl in *.
  - rewrite Nat.add_0_r. constructor.
  - apply andb_true_iff in H as [Hc Hd].
    rewrite Nat.add_succ_r. apply span_star_more; [exact Hc|].
    apply (IH t (S pos) caps Hd).
Qed.

(** a signed literal (digits [d :: ds] and a fraction [fr]), an operator
    and a further digit are matched by [binop_re] from the sign on *)
Lemma binop_span_negative (ops : list ascii) (d : ascii) (ds fr : string)
      (op e : ascii) (t : string) :
  PyStr.is_digit d = true -> all_digits ds = true -> is_fraction fr = true ->
  mem op ops = true -> PyStr.is_digit e = true ->
  exists s' pos' caps',
    span (binop_re ops) (String "-" (String d (ds ++ fr ++ String op (String e t)))) 0 []
         s' pos' caps'.
Proof.
  intros Hd Hds Hfr Hop He.
  assert (Hf : exists p, span (Seq (Opt (Lit ".")) (Star Digit))
                              (fr ++ String op (String e t)) (1 + (1 + String.length ds)) []
                              (String op (String e t)) p []).
  { destruct fr as [|c fs]; simpl in Hfr.
    - eexists. eapply span_seq; [apply span_opt_skip | apply span_star_stop].
    - apply andb_true_iff in Hfr as [Hc Hfs].
      eexists. eapply span_seq; [apply span_opt_take; exact Hc|].
      apply span_digits. exact Hfs. }
  destruct Hf as [p Hf].
  do 3 eexists. unfold binop_re, signed_re, unsigned_re.
  eapply span_seq.
  { apply span_group. eapply span_seq; [apply span_opt_take; reflexivity|].
    eapply span_seq; [apply span_plus; [exact Hd | apply span_digits; exact Hds]|].
    exact Hf. }
  eapply span_seq; [apply span_star_stop|].
  eapply span_seq; [apply span_group; apply span_one; exact Hop|].
  eapply span_seq; [apply span_star_stop|].
  apply span_group. eapply span_seq; [apply span_opt_skip|].
  eapply span_seq; [apply span_plus; [exact He | apply span_star_stop]|].
  eapply span_seq; [apply span_opt_skip | apply span_star_stop].
Qed.

(** behind a minus sign the signed literal holds a digit at least *)
Lemma signed_span_minus t pos caps s' pos' caps' :
  span signed_re (String "-" t) pos caps s' pos' caps' -> pos + 2 <= pos'.
Proof.
  intro H. unfold signed_re in H. inversion H; subst.
  match goal with
  | Ho : span (Opt (Lit "-")) _ _ _ _ _ _, Hu : span unsigned_re _ _ _ _ _ _ |- _ =>
      inversion Ho; subst
  end.
  - match goal with
    | Hu : span unsigned_re _ _ _ _ _ _ |- _ => unfold unsigned_re in Hu; inversion Hu; subst
    end.
    match goal with
    | Hp : span (Plus Digit) _ _ _ _ _ _ |- _ => inversion Hp; subst
    end.
    match goal with
    | Hc : cls_ok Digit "-" = true |- _ => vm_compute in Hc; discriminate
    end.
  - match goal with
    | Hu : span unsigned_re _ _ _ _ _ _ |- _ =>
        destruct (span_offsets _ _ _ _ _ _ _ Hu) as [L _]; simpl in L; lia
    end.
Qed.

(** a finished turn of the addition loop splices behind offset 0 *)
Lemma addsub_turn_offsets (st st' : state) :
  addsub_turn st = Continue st' ->
  current_expr st <> "" /\
  exists a b shown descr, st' = record_step st (S a) b shown descr.
Proof.
  intro H. unfold addsub_turn in H.
  destruct (current_expr st) as [|c0 cur] eqn:E; [discriminate|].
  split; [discriminate|].
  split_turn H; injection H as <-; rewrite !Nat.add_1_r; eauto.
Qed.




(* ------------------------------------------------------------------ *)
(** ** The precedence law: the parser on texts without brackets         *)
(* ------------------------------------------------------------------ *)

Import PyEval Precedence.
Local Open Scope list_scope.

(** The equations of the parser, one turn of each function. *)
Lemma term_rest_eq fuel acc ts :
  term_rest (S fuel) acc ts =
  match ts with
  | TStar :: ts' =>
      r <- parse_factor fuel ts' ;; term_rest fuel (EBin Mul acc (fst r)) (snd r)
  | TSlash :: ts' =>
      r <- parse_factor fuel ts' ;; term_rest fuel (EBin Div acc (fst r)) (snd r)
  | _ => Ok (acc, ts)
  end.
Proof. reflexivity. Qed.

Lemma sum_rest_eq fuel acc ts :
  sum_rest (S fuel) acc ts =
  match ts with
  | TPlus :: ts' =>
      r <- parse_term fuel ts' ;; sum_rest fuel (EBin Add acc (fst r)) (snd r)
  | TMinus :: ts' =>
      r <- parse_term fuel ts' ;; sum_rest fuel (EBin Sub acc (fst r)) (snd r)
  | _ => Ok (acc, ts)
  end.
Proof. reflexivity. Qed.

Lemma parse_term_eq fuel ts :
  parse_term (S fuel) ts = (r <- parse_factor fuel ts ;; term_rest fuel (fst r) (snd r)).
Proof. reflexivity. Qed.

Lemma parse_sum_eq fuel ts :
  parse_sum (S fuel) ts = (r <- parse_term fuel ts ;; sum_rest fuel (fst r) (snd r)).
Proof. reflexivity. Qed.

Lemma parse_list_eq fuel ts :
  parse_list (S fuel) ts =
  (r <- parse_sum fuel ts ;;
   match snd r with
   | TComma :: ts' => items_rest fuel [fst r] ts'
   | _ => Ok r
   end).
Proof. reflexivity. Qed.

Lemma parse_factor_operand (sg : list bool) (v : value) (tail : list token) :
  after_operand tail ->
  forall fuel, List.length sg + 3 <= fuel ->
    parse_factor fuel (map sign_token sg ++ TNum v :: tail) =
    Ok (operand_tree (MkOperand sg v), tail).
Proof.
  intro Ht. induction sg as [|b sg IH]; intros fuel Hf.
  - destruct fuel as [|[|[|fuel]]]; simpl in Hf; try lia.
    simpl. destruct tail as [|t tail]; [reflexivity|].
    destruct t; simpl in Ht; try contradiction; reflexivity.
  - destruct fuel as [|fuel]; simpl in Hf; [lia|].
    assert (E := IH fuel ltac:(lia)).
    destruct b; simpl; simpl in E; rewrite E; reflexivity.
Qed.

Lemma after_term_operand ts : after_term ts -> after_operand ts.
Proof. destruct ts as [|t ts]; [auto|]. destruct t; simpl; auto. Qed.

Lemma after_sum_term ts : after_sum ts -> after_term ts.
Proof. destruct ts as [|t ts]; [auto|]. destruct t; simpl; auto. Qed.

Lemma after_operand_factors l tail :
  after_term tail -> after_operand (factors_tokens l ++ tail).
Proof.
  intro H. destruct l as [|[[|] o] l]; simpl; auto.
  apply after_term_operand. exact H.
Qed.

Lemma term_rest_factors (l : list (mul_op * operand)) (tail : list token) :
  after_term tail ->
  forall fuel acc, List.length (factors_tokens l) + 4 <= fuel ->
    term_rest fuel acc (factors_tokens l ++ tail) = Ok (factors_tree acc l, tail).
Proof.
  intro Ht. induction l as [|[op o] l IH]; intros fuel acc Hf.
  - destruct fuel as [|fuel]; simpl in Hf; [lia|].
    simpl. destruct tail as [|t tail]; [reflexivity|].
    destruct t; simpl in Ht; try contradiction; reflexivity.
  - destruct fuel as [|fuel]; [simpl in Hf; lia|].
    change (factors_tokens ((op, o) :: l))
      with (mul_token op :: operand_tokens o ++ factors_tokens l) in *.
    simpl List.length in Hf. rewrite length_app in Hf.
    unfold operand_tokens in *. rewrite length_app, length_map in Hf. simpl in Hf.
    cbn [app]. rewrite <- !app_assoc. cbn [app].
    assert (E : parse_factor fuel
                  (map sign_token (signs o) ++ TNum (literal o) :: factors_tokens l ++ tail) =
                Ok (operand_tree o, factors_tokens l ++ tail)).
    { destruct o as [sg v]. apply parse_factor_operand; [|simpl in *; lia].
      apply after_operand_factors. exact Ht. }
    rewrite term_rest_eq.
    destruct op; cbn [mul_token]; rewrite E; cbn [bind fst snd]; apply IH; lia.
Qed.

Lemma parse_term_tokens (t : term) (tail : list token) :
  after_term tail ->
  forall fuel, List.length (term_tokens t) + 5 <= fuel ->
    parse_term fuel (term_tokens t ++ tail) = Ok (term_tree t, tail).
Proof.
  intros Ht fuel Hf. destruct t as [o l].
  unfold term_tokens, term_tree in *. simpl fst in *. simpl snd in *.
  destruct fuel as [|fuel]; [lia|].
  rewrite length_app in Hf. unfold operand_tokens in *.
  rewrite length_app, length_map in Hf. simpl in Hf.
  cbn [app]. rewrite <- !app_assoc. cbn [app].
  assert (E : parse_factor fuel
                (map sign_token (signs o) ++ TNum (literal o) :: factors_tokens l ++ tail) =
              Ok (operand_tree o, factors_tokens l ++ tail)).
  { destruct o as [sg v]. apply parse_factor_operand; [|simpl in *; lia].
    apply after_operand_factors. exact Ht. }
  rewrite parse_term_eq, E. cbn [bind fst snd].
  apply term_rest_factors; [exact Ht | lia].
Qed.

Lemma after_term_terms l tail :
  after_sum tail -> after_term (terms_tokens l ++ tail).
Proof.
  intro H. destruct l as [|[[|] o] l]; simpl; auto.
  apply after_sum_term. exact H.
Qed.

Lemma sum_rest_terms (l : list (add_op * term)) (tail : list token) :
  after_sum tail ->
  forall fuel acc, List.length (terms_tokens l) + 6 <= fuel ->
    sum_rest fuel acc (terms_tokens l ++ tail) = Ok (terms_tree acc l, tail).
Proof.
  intro Ht. induction l as [|[op t] l IH]; intros fuel acc Hf.
  - destruct fuel as [|fuel]; simpl in Hf; [lia|].
    simpl. destruct tail as [|x tail]; [reflexivity|].
    destruct x; simpl in Ht; try contradiction; reflexivity.
  - destruct fuel as [|fuel]; [simpl in Hf; lia|].
    change (terms_tokens ((op, t) :: l))
      with (add_token op :: term_tokens t ++ terms_tokens l) in *.
    simpl List.length in Hf. rewrite length_app in Hf.
    cbn [app]. rewrite <- !app_assoc. cbn [app].
    assert (E : parse_term fuel (term_tokens t ++ terms_tokens l ++ tail) =
                Ok (term_tree t, terms_tokens l ++ tail)).
    { apply parse_term_tokens; [|lia]. apply after_term_terms. exact Ht. }
    rewrite sum_rest_eq.
    destruct op; cbn [add_token]; rewrite E; cbn [bind fst snd]; apply IH; lia.
Qed.

(** The parser reads the tokens of a text without brackets as the tree
    that groups [*] and [/] before [+] and [-]. *)
Lemma parse_tokens_of (e : flat) : parse (tokens_of e) = Ok (flat_tree e).
Proof.
  unfold parse.
  set (n := List.length (tokens_of e)).
  assert (E : parse_list (8 * n + 8) (tokens_of e) = Ok (flat_tree e, [])).
  { replace (8 * n + 8) with (S (S (S (8 * n + 5)))) by lia.
    assert (P : parse_term (S (8 * n + 5)) (tokens_of e) =
                Ok (term_tree (fst e), terms_tokens (snd e))).
    { unfold tokens_of. apply parse_term_tokens.
      - rewrite <- (app_nil_r (terms_tokens (snd e))).
        apply after_term_terms. exact I.
      - subst n. unfold tokens_of. rewrite length_app. lia. }
    assert (S : sum_rest (S (8 * n + 5)) (term_tree (fst e)) (terms_tokens (snd e)) =
                Ok (flat_tree e, [])).
    { rewrite <- (app_nil_r (terms_tokens (snd e))).
      apply sum_rest_terms; [exact I|].
      subst n. unfold tokens_of. rewrite length_app. lia. }
    rewrite parse_list_eq, parse_sum_eq, P. cbn [bind fst snd].
    rewrite S. reflexivity. }
  rewrite E. reflexivity.
Qed.

Lemma eval_operand_tree (o : operand) : eval_expr (operand_tree o) = operand_value o.
Proof.
  destruct o as [sg v]. unfold operand_tree, operand_value; simpl.
  induction sg as [|b sg IH]; [reflexivity|].
  destruct b; simpl; rewrite IH; reflexivity.
Qed.

Lemma eval_factors_tree (l : list (mul_op * operand)) :
  forall acc,
    eval_expr (factors_tree acc l) =
    fold_left (fun a x => apply (mul_binop (fst x)) a (operand_value (snd x))) l (eval_expr acc).
Proof.
  induction l as [|[op o] l IH]; intro acc; [reflexivity|].
  unfold factors_tree in *. simpl. rewrite IH. simpl.
  rewrite eval_operand_tree. reflexivity.
Qed.

Lemma eval_term_tree (t : term) : eval_expr (term_tree t) = term_value t.
Proof.
  unfold term_tree, term_value. rewrite eval_factors_tree, eval_operand_tree. reflexivity.
Qed.

Lemma eval_terms_tree (l : list (add_op * term)) :
  forall acc,
    eval_expr (terms_tree acc l) =
    fold_left (fun a x => apply (add_binop (fst x)) a (term_value (snd x))) l (eval_expr acc).
Proof.
  induction l as [|[op t] l IH]; intro acc; [reflexivity|].
  unfold terms_tree in *. simpl. rewrite IH. simpl.
  rewrite eval_term_tree. reflexivity.
Qed.

Lemma eval_flat_tree (e : flat) : eval_expr (flat_tree e) = two_pass e.
Proof.
  unfold flat_tree, two_pass, second_pass, first_pass. simpl.
  rewrite eval_terms_tree, eval_term_tree.
  generalize (term_value (fst e)) as a. induction (snd e) as [|x l IH]; intro a.
  - reflexivity.
  - simpl. apply IH.
Qed.



(* ------------------------------------------------------------------ *)
(** ** The text of a number                                             *)
(* ------------------------------------------------------------------ *)

Import MoreSpec FlaskApp.
Local Open Scope string_scope.

Lemma number_text_app (a b : string) :
  number_text (a ++ b) = number_text a && number_text b.
Proof.
  induction a as [|c a IH]; simpl; [reflexivity|].
  rewrite IH. apply andb_assoc.
Qed.

Lemma digits_number_text (s : string) : all_digits s = true -> number_text s = true.
Proof.
  induction s as [|c s IH]; simpl; [reflexivity|].
  intro H. apply andb_true_iff in H as [Hc Hs].
  unfold number_char. rewrite Hc, (IH Hs). reflexivity.
Qed.

Lemma all_digits_app (a b : string) :
  all_digits (a ++ b) = all_digits a && all_digits b.
Proof.
  induction a as [|c a IH]; simpl; [reflexivity|].
  rewrite IH. apply andb_assoc.
Qed.

Lemma all_digits_take (n : nat) : forall s, all_digits s = true -> all_digits (take n s) = true.
Proof.
  induction n as [|n IH]; intros [|c s] H; simpl in *; try reflexivity.
  apply andb_true_iff in H as [Hc Hs]. rewrite Hc, (IH s Hs). reflexivity.
Qed.

Lemma all_digits_drop (n : nat) : forall s, all_digits s = true -> all_digits (drop n s) = true.
Proof.
  induction n as [|n IH]; intros [|c s] H; simpl in *; try reflexivity; try exact H.
  apply andb_true_iff in H as [Hc Hs]. apply IH. exact Hs.
Qed.

Lemma digit_char_is_digit (d : Z) : (0 <= d < 10)%Z -> is_digit (digit_char d) = true.
Proof.
  intro H.
  assert (E : (d = 0 \/ d = 1 \/ d = 2 \/ d = 3 \/ d = 4 \/ d = 5 \/ d = 6 \/ d = 7 \/
               d = 8 \/ d = 9)%Z) by lia.
  repeat (destruct E as [->|E]; [reflexivity|]). subst d. reflexivity.
Qed.

Lemma digits_fuel_digits (fuel : nat) :
  forall n acc, all_digits acc = true -> all_digits (digits_fuel fuel n acc) = true.
Proof.
  induction fuel as [|fuel IH]; intros n acc H; simpl; [exact H|].
  assert (Hd : all_digits (String (digit_char (n mod 10)) acc) = true).
  { simpl. rewrite H, digit_char_is_digit; [reflexivity|].
    apply Z.mod_pos_bound. lia. }
  destruct (n <? 10)%Z; [exact Hd | apply IH; exact Hd].
Qed.

Lemma digits_of_digits (n : Z) : all_digits (digits_of n) = true.
Proof. unfold digits_of. apply digits_fuel_digits. reflexivity. Qed.

Lemma zeros_digits (n : nat) : all_digits (zeros n) = true.
Proof. induction n as [|n IH]; simpl; [reflexivity | exact IH]. Qed.

Lemma pad2_digits (s : string) : all_digits s = true -> all_digits (pad2 s) = true.
Proof.
  intro H. destruct s as [|c [|d s]]; simpl in *; try exact H.
Qed.

Lemma layout_number_text (ds : string) (dp : Z) :
  all_digits ds = true -> number_text (layout ds dp) = true.
Proof.
  intro H. unfold layout.
  destruct ((dp <=? -4)%Z || (16 <? dp)%Z).
  - rewrite !number_text_app.
    assert (Hm : number_text match ds with
                             | String d EmptyString => ds
                             | String d (String _ _ as rest) => String d (String "." rest)
                             | EmptyString => ds
                             end = true).
    { destruct ds as [|d [|d' rest]]; try (apply digits_number_text; exact H).
      simpl in H. apply andb_true_iff in H as [Hd Hr].
      simpl. unfold number_char at 1. rewrite Hd. simpl.
      change (number_text (String d' rest) = true).
      apply digits_number_text. exact Hr. }
    rewrite Hm.
    rewrite (digits_number_text _ (pad2_digits _ (digits_of_digits _))).
    destruct (dp - 1 <? 0)%Z; reflexivity.
  - destruct (dp <=? 0)%Z.
    + rewrite !number_text_app, (digits_number_text _ (zeros_digits _)),
        (digits_number_text _ H). reflexivity.
    + destruct (Z.of_nat (String.length ds) <=? dp)%Z.
      * rewrite !number_text_app, (digits_number_text _ (zeros_digits _)),
          (digits_number_text _ H). reflexivity.
      * rewrite !number_text_app,
          (digits_number_text _ (all_digits_take _ _ H)),
          (digits_number_text _ (all_digits_drop _ _ H)). reflexivity.
Qed.

(** [str] of a float is made of the characters of numbers *)
Lemma str_float_number_text (f : float) : number_text (str_float f) = true.
Proof.
  unfold str_float. destruct (Prim2SF f) as [s|s| |s m e].
  - destruct s; reflexivity.
  - destruct s; reflexivity.
  - reflexivity.
  - destruct (shortest m e) as [c q].
    pose proof (layout_number_text (digits_of c)
                  (q + Z.of_nat (String.length (digits_of c))) (digits_of_digits c)) as L.
    destruct s; simpl; rewrite L; reflexivity.
Qed.

(** and so is [str] of an int *)
Lemma str_int_number_text (z : Z) : number_text (str_int z) = true.
Proof.
  unfold str_int. destruct (z <? 0)%Z; simpl;
    rewrite (digits_number_text _ (digits_of_digits _)); reflexivity.
Qed.

(** a character that numbers do not use does not occur in such a text *)
Lemma number_text_count (c : ascii) (s : string) :
  number_char c = false -> number_text s = true -> count_char c s = 0.
Proof.
  intros Hc. induction s as [|d s IH]; simpl; [reflexivity|].
  intro H. apply andb_true_iff in H as [Hd Hs].
  rewrite (IH Hs). destruct (Ascii.eqb c d) eqn:E; [|reflexivity].
  apply Ascii.eqb_eq in E. subst d. congruence.
Qed.

(* ------------------------------------------------------------------ *)
(** ** The multiplication and division loop comes to an end             *)
(* ------------------------------------------------------------------ *)

Lemma take_drop (n : nat) : forall s, s = take n s ++ drop n s.
Proof.
  induction n as [|n IH]; intros [|c s]; simpl; try reflexivity.
  f_equal. apply IH.
Qed.

Lemma count_char_app (c : ascii) (a b : string) :
  count_char c (a ++ b) = count_char c a + count_char c b.
Proof.
  induction a as [|d a IH]; simpl; [reflexivity|]. rewrite IH. lia.
Qed.

(** a text cut at the offsets [a <= b] *)
Lemma count_char_cut (c : ascii) (a b : nat) (s : string) :
  a <= b ->
  count_char c s =
  count_char c (take a s) + count_char c (slice a b s) + count_char c (drop b s).
Proof.
  intro H. rewrite (take_drop a s) at 1. rewrite count_char_app.
  rewrite (take_drop (b - a) (drop a s)) at 1. rewrite count_char_app.
  unfold slice. rewrite drop_drop. replace (b - a + a) with b by lia. lia.
Qed.

Lemma count_char_take (c : ascii) (k : nat) :
  forall n t rest, drop k t = String c rest -> k < n -> 1 <= count_char c (take n t).
Proof.
  induction k as [|k IH]; intros n t rest H Hn.
  - destruct t as [|d t]; [discriminate|]. simpl in H. injection H as -> ->.
    destruct n as [|n]; [lia|]. simpl. rewrite Ascii.eqb_refl. lia.
  - destruct t as [|d t]; [discriminate|]. simpl in H.
    destruct n as [|n]; [lia|]. simpl.
    pose proof (IH n t rest H ltac:(lia)). lia.
Qed.

Lemma count_char_slice (c : ascii) (a b k : nat) (s rest : string) :
  drop k s = String c rest -> a <= k -> k < b -> 1 <= count_char c (slice a b s).
Proof.
  intros H Ha Hb. unfold slice.
  apply (count_char_take c (k - a) _ _ rest); [|lia].
  rewrite drop_drop. replace (k - a + a) with k by lia. exact H.
Qed.

Lemma count_char_none (c : ascii) (s : string) :
  count_char c s = 0 -> contains_char c s = false.
Proof.
  induction s as [|d s IH]; simpl; [reflexivity|].
  destruct (Ascii.eqb c d); simpl; [lia | exact IH].
Qed.

Lemma muldiv_count_number (s : string) : number_text s = true -> muldiv_count s = 0.
Proof.
  intro H. unfold muldiv_count.
  rewrite !(number_text_count _ s) by (reflexivity || exact H). reflexivity.
Qed.

(** a finished turn removes a [*] or a [/] and adds none *)
Lemma muldiv_turn_decreases (st st' : state) :
  muldiv_turn st = Continue st' ->
  muldiv_count (current_expr st') < muldiv_count (current_expr st) /\
  List.length (steps st') = S (List.length (steps st)).
Proof.
  intro H. unfold muldiv_turn in H.
  destruct (contains_char "*" (current_expr st) || contains_char "/" (current_expr st));
    [|discriminate].
  destruct (search muldiv_re (current_expr st)) as [m|] eqn:E; [|discriminate].
  destruct (search_binop _ _ _ E)
    as (p1 & a & p3 & c & rest & L1 & L2 & L3 & L4 & _ & Hd & Hmem & _).
  cbv zeta in H.
  destruct (float_of_str (group (current_expr st) m 1)) as [x|]; [|discriminate].
  destruct (float_of_str (group (current_expr st) m 3)) as [y|]; [|discriminate].
  injection H as <-. unfold record_step. cbn [current_expr steps].
  split; [|rewrite length_app; simpl; lia].
  set (shown := str_float _).
  assert (Hs : muldiv_count shown = 0)
    by (apply muldiv_count_number, str_float_number_text).
  assert (Hm : 1 <= muldiv_count (slice (m_start m) (m_end m) (current_expr st))).
  { unfold muldiv_count.
    assert (Hc : c = "*"%char \/ c = "/"%char).
    { unfold mem in Hmem; simpl in Hmem.
      apply orb_true_iff in Hmem as [Hc|Hc]; [left; apply Ascii.eqb_eq; exact Hc|].
      apply orb_true_iff in Hc as [Hc|Hc]; [right; apply Ascii.eqb_eq; exact Hc|discriminate]. }
    destruct Hc as [-> | ->].
    - pose proof (count_char_slice "*" (m_start m) (m_end m) a _ rest Hd
                    ltac:(lia) ltac:(lia)). lia.
    - pose proof (count_char_slice "/" (m_start m) (m_end m) a _ rest Hd
                    ltac:(lia) ltac:(lia)). lia. }
  unfold muldiv_count in *. rewrite !count_char_app.
  rewrite (count_char_cut "*" (m_start m) (m_end m) (current_expr st)) by lia.
  rewrite (count_char_cut "/" (m_start m) (m_end m) (current_expr st)) by lia.
  lia.
Qed.

Lemma muldiv_turn_described (st : state) : muldiv_turn st <> Unknown.
Proof.
  unfold muldiv_turn.
  repeat match goal with
         | |- context [match ?x with _ => _ end] => destruct x
         | |- context [if ?x then _ else _] => destruct x
         end; discriminate.
Qed.

Lemma muldiv_turn_exit (st : state) :
  muldiv_count (current_expr st) = 0 -> muldiv_turn st = Exit.
Proof.
  intro H. unfold muldiv_count in H. unfold muldiv_turn.
  rewrite !count_char_none by lia. reflexivity.
Qed.

(** X1: the multiplication and division loop always ends: with as many
    turns allowed as the working text holds [*] and [/] it returns, it
    records at most one step for each of them and leaves no more of them
    than it found. *)
Theorem muldiv_loop_terminates :
  forall fuel st,
    muldiv_count (current_expr st) <= fuel ->
    exists st',
      while muldiv_turn fuel st = Returns st' /\
      List.length (steps st') <= List.length (steps st) + muldiv_count (current_expr st) /\
      muldiv_count (current_expr st') <= muldiv_count (current_expr st).
Proof.
  induction fuel as [|fuel IH]; intros st Hf.
  - simpl. rewrite muldiv_turn_exit by lia. exists st. repeat split; lia.
  - simpl. destruct (muldiv_turn st) as [st1| | |] eqn:E.
    + destruct (muldiv_turn_decreases _ _ E) as [Hlt Hlen].
      destruct (IH st1 ltac:(lia)) as (st' & Hw & Hl & Hc).
      exists st'. repeat split; [exact Hw | lia | lia].
    + exists st. repeat split; lia.
    + exists st. repeat split; lia.
    + exfalso. exact (muldiv_turn_described st E).
Qed.

Lemma muldiv_loop_terminates_witness :
  exists st',
    while muldiv_turn 2 (MkState [] 1 "24/3/2") = Returns st' /\
    List.length (steps st') <=
      List.length (steps (MkState [] 1 "24/3/2")) +
      muldiv_count (current_expr (MkState [] 1 "24/3/2")) /\
    muldiv_count (current_expr st') <= muldiv_count (current_expr (MkState [] 1 "24/3/2")).
Proof.
  apply (muldiv_loop_terminates 2 (MkState [] 1 "24/3/2")). vm_compute. lia.
Defined.

(* ------------------------------------------------------------------ *)
(** ** The exponent loop comes to an end                                *)
(* ------------------------------------------------------------------ *)

(** a match of [exponent_re] holds two stars behind its first operand *)
Lemma exponent_span s pos s' pos' caps' :
  span exponent_re s pos [] s' pos' caps' ->
  exists a rest,
    pos < a /\ a + 2 < pos' /\ drop (a - pos) s = String "*" (String "*" rest).
Proof.
  intro H. unfold exponent_re in H.
  inversion H as [| | | | | |? ? ? ? ? s1 p1 c1 ? ? ? Hg1 H1|]; subst; clear H.
  inversion H1 as [| | | | | |? ? ? ? ? s2 p2 c2 ? ? ? Ho1 H2|]; subst; clear H1.
  inversion H2 as [| | | | | |? ? ? ? ? s3 p3 c3 ? ? ? Ho2 Hg2|]; subst; clear H2.
  destruct (span_offsets _ _ _ _ _ _ _ Hg1) as [L1 D1]. simpl in L1.
  destruct (span_offsets _ _ _ _ _ _ _ Hg2) as [L2 _]. simpl in L2.
  inversion Ho1; subst. inversion Ho2; subst.
  repeat match goal with
         | Hc : cls_ok (Lit "*") ?c = true |- _ =>
             unfold cls_ok in Hc; apply Ascii.eqb_eq in Hc; subst c
         end.
  exists p1. eexists. split; [lia|]. split; [lia|].
  match goal with
  | Hd : String _ _ = drop _ _ |- _ => symmetry; exact Hd
  end.
Qed.

Lemma count_char_take2 (c : ascii) (k : nat) :
  forall n t rest,
    drop k t = String c (String c rest) -> k + 1 < n -> 2 <= count_char c (take n t).
Proof.
  induction k as [|k IH]; intros n t rest H Hn.
  - destruct t as [|d [|d' t]]; try discriminate. simpl in H. injection H as -> -> ->.
    destruct n as [|[|n]]; try lia. simpl. rewrite Ascii.eqb_refl. lia.
  - destruct t as [|d t]; [discriminate|]. simpl in H.
    destruct n as [|n]; [lia|]. simpl.
    pose proof (IH n t rest H ltac:(lia)). lia.
Qed.

Lemma contains_stars (s : string) : contains "**" s = true -> 2 <= count_char "*" s.
Proof.
  induction s as [|c s IH]; simpl; [discriminate|].
  intro H. apply orb_true_iff in H as [H|H].
  - destruct s as [|d s]; [rewrite andb_false_r in H; discriminate|].
    apply andb_true_iff in H as [Hc Hd]. apply andb_true_iff in Hd as [Hd _].
    simpl. rewrite Hc, Hd. lia.
  - pose proof (IH H). destruct (Ascii.eqb "*" c); lia.
Qed.

(** a finished turn removes two stars and adds none *)
Lemma exponent_turn_decreases (st st' : state) :
  exponent_turn st = Continue st' ->
  count_char "*" (current_expr st') + 2 <= count_char "*" (current_expr st) /\
  List.length (steps st') = S (List.length (steps st)).
Proof.
  intro H. unfold exponent_turn in H.
  destruct (contains "**" (current_expr st)); [|discriminate].
  destruct (search exponent_re (current_expr st)) as [m|] eqn:E; [|discriminate].
  unfold search in E.
  destruct (search_from_leftmost _ _ _ _ E) as (j & Hj & Hm & _). simpl in Hj, Hm.
  destruct (match_at_span _ _ _ _ Hm) as (s' & Hs & _).
  destruct (exponent_span _ _ _ _ _ Hs) as (a & rest & L1 & L2 & Hd).
  rewrite drop_drop in Hd. replace (a - j + j) with a in Hd by lia.
  destruct (_ <- of_option (float_of_str (group (current_expr st) m 1)) ;; _)
    as [result| |]; try discriminate.
  injection H as <-. unfold record_step. cbn [current_expr steps].
  split; [|rewrite length_app; simpl; lia].
  rewrite !count_char_app.
  rewrite (number_text_count "*" (str_float result)) by
      (reflexivity || apply str_float_number_text).
  rewrite (count_char_cut "*" (m_start m) (m_end m) (current_expr st)) by lia.
  assert (2 <= count_char "*" (slice (m_start m) (m_end m) (current_expr st))).
  { unfold slice. apply (count_char_take2 "*" (a - m_start m) _ _ rest); [|lia].
    rewrite drop_drop. replace (a - m_start m + m_start m) with a by lia. exact Hd. }
  lia.
Qed.

Lemma exponent_turn_exit (st : state) :
  count_char "*" (current_expr st) <= 1 -> exponent_turn st = Exit.
Proof.
  intro H. unfold exponent_turn.
  destruct (contains "**" (current_expr st)) eqn:E; [|reflexivity].
  apply contains_stars in E. lia.
Qed.



(* ------------------------------------------------------------------ *)
(** ** Without a comma [eval] gives no tuple                            *)
(* ------------------------------------------------------------------ *)

Lemma within_refl (s : string) : within s s.
Proof. intro c. lia. Qed.

Lemma within_trans (a b c : string) : within a b -> within b c -> within a c.
Proof. intros H1 H2 x. specialize (H1 x). specialize (H2 x). lia. Qed.

Lemma within_cons (d : ascii) (rest s : string) : within rest s -> within rest (String d s).
Proof. intros H c. specialize (H c). simpl. lia. Qed.

Lemma read_digits_within (s : string) :
  forall acc cnt, within (snd (read_digits s acc cnt)) s.
Proof.
  induction s as [|c s IH]; intros acc cnt; simpl.
  - apply within_refl.
  - destruct (is_digit c).
    + apply within_cons. apply IH.
    + apply within_refl.
Qed.

Lemma read_exponent_within (s : string) (ex : Z) (rest : string) :
  read_exponent s = Some (ex, rest) -> within rest s.
Proof.
  unfold read_exponent. destruct s as [|c s1]; [discriminate|].
  destruct (Ascii.eqb c "e" || Ascii.eqb c "E"); [|discriminate].
  set (p := match s1 with
            | String "-" s' => (true, s')
            | String "+" s' => (false, s')
            | _ => (false, s1)
            end).
  assert (Hp : within (snd p) s1).
  { subst p. destruct s1 as [|d s']; [apply within_refl|].
    destruct (Ascii.eqb d "-") eqn:E1.
    - apply Ascii.eqb_eq in E1. subst d. apply within_cons, within_refl.
    - destruct (Ascii.eqb d "+") eqn:E2.
      + apply Ascii.eqb_eq in E2. subst d. apply within_cons, within_refl.
      + assert (E : match String d s' with
                    | String "-" s'0 => (true, s'0)
                    | String "+" s'0 => (false, s'0)
                    | _ => (false, String d s')
                    end = (false, String d s')).
        { destruct d as [[] [] [] [] [] [] [] []]; try reflexivity; discriminate. }
        rewrite E. apply within_refl. }
  destruct p as [neg s2]. simpl in Hp.
  pose proof (read_digits_within s2 0%Z 0%Z) as Hr.
  destruct (read_digits s2 0 0) as [[e cnt] r]. simpl in Hr.
  destruct (cnt =? 0)%Z; [discriminate|].
  intro H. injection H as _ <-.
  apply within_cons. eapply within_trans; eassumption.
Qed.

Lemma lex_number_within (s : string) (v : value) (rest : string) :
  lex_number s = Ok (v, rest) -> within rest s /\ is_number v = true.
Proof.
  unfold lex_number.
  pose proof (read_digits_within s 0%Z 0%Z) as H1.
  destruct (read_digits s 0 0) as [[ip icnt] r1]. simpl in H1.
  assert (Hint : (if (icnt =? 0)%Z then Outside
                  else match read_exponent r1 with
                       | Some (ex, r4) =>
                           if starts_with_e r4 then Outside
                           else Ok (VFloat (float_of_decimal false ip ex), r4)
                       | None =>
                           if starts_with_e r1 then Outside
                           else if has_leading_zero s && negb (ip =? 0)%Z then Raise
                                else Ok (VInt ip, r1)
                       end) = Ok (v, rest) -> within rest s /\ is_number v = true).
  { destruct (icnt =? 0)%Z; [discriminate|].
    destruct (read_exponent r1) as [[ex r4]|] eqn:E.
    - destruct (starts_with_e r4); [discriminate|].
      intro H. injection H as <- <-. split; [|reflexivity].
      eapply within_trans; [eapply read_exponent_within; exact E | exact H1].
    - destruct (starts_with_e r1); [discriminate|].
      destruct (has_leading_zero s && negb (ip =? 0)%Z); [discriminate|].
      intro H. injection H as <- <-. split; [exact H1 | reflexivity]. }
  destruct r1 as [|c r2]; [exact Hint|].
  destruct (Ascii.eqb c ".") eqn:Ec.
  - apply Ascii.eqb_eq in Ec. subst c.
    pose proof (read_digits_within r2 ip 0%Z) as H2.
    destruct (read_digits r2 ip 0) as [[fp fcnt] r3]. simpl in H2.
    assert (H3 : within r3 s).
    { eapply within_trans; [exact H2|]. eapply within_trans; [|exact H1].
      apply within_cons, within_refl. }
    destruct ((icnt =? 0)%Z && (fcnt =? 0)%Z); [discriminate|].
    destruct (read_exponent r3) as [[ex r4]|] eqn:E.
    + destruct (starts_with_e r4); [discriminate|].
      intro H. injection H as <- <-. split; [|reflexivity].
      eapply within_trans; [eapply read_exponent_within; exact E | exact H3].
    + destruct (starts_with_e r3); [discriminate|].
      intro H. injection H as <- <-. split; [exact H3 | reflexivity].
  - assert (E : match String c r2 with
                | String "." r3 =>
                    let '(fp, fcnt, r4) := read_digits r3 ip 0 in
                    if (icnt =? 0)%Z && (fcnt =? 0)%Z then Outside
                    else match read_exponent r4 with
                         | Some (ex, r5) =>
                             if starts_with_e r5 then Outside
                             else Ok (VFloat (float_of_decimal false fp (ex - fcnt)), r5)
                         | None =>
                             if starts_with_e r4 then Outside
                             else Ok (VFloat (float_of_decimal false fp (- fcnt)), r4)
                         end
                | _ =>
                    if (icnt =? 0)%Z then Outside
                    else match read_exponent (String c r2) with
                         | Some (ex, r4) =>
                             if starts_with_e r4 then Outside
                             else Ok (VFloat (float_of_decimal false ip ex), r4)
                         | None =>
                             if starts_with_e (String c r2) then Outside
                             else if has_leading_zero s && negb (ip =? 0)%Z then Raise
                                  else Ok (VInt ip, String c r2)
                         end
                end =
                (if (icnt =? 0)%Z then Outside
                 else match read_exponent (String c r2) with
                      | Some (ex, r4) =>
                          if starts_with_e r4 then Outside
                          else Ok (VFloat (float_of_decimal false ip ex), r4)
                      | None =>
                          if starts_with_e (String c r2) then Outside
                          else if has_leading_zero s && negb (ip =? 0)%Z then Raise
                               else Ok (VInt ip, String c r2)
                      end)).
    { destruct c as [[] [] [] [] [] [] [] []]; try reflexivity; discriminate. }
    rewrite E. exact Hint.
Qed.

Lemma count_cons_zero (c d : ascii) (s : string) :
  count_char c (String d s) = 0 -> Ascii.eqb c d = false /\ count_char c s = 0.
Proof.
  simpl. destruct (Ascii.eqb c d); [lia|]. intro H. split; [reflexivity | lia].
Qed.

(** a text without comma and opening bracket has no such token *)
Lemma tokenize_plain (fuel : nat) :
  forall s ts,
    count_char "," s = 0 -> count_char "(" s = 0 ->
    tokenize fuel s = Ok ts -> forallb plain_token ts = true.
Proof.
  induction fuel as [|fuel IH]; intros s ts Hc Hp H; [discriminate|].
  destruct s as [|c s]; [injection H as <-; reflexivity|].
  destruct (count_cons_zero _ _ _ Hc) as [Ec Hc'].
  destruct (count_cons_zero _ _ _ Hp) as [Ep Hp'].
  assert (Push : forall t rest,
             plain_token t = true ->
             count_char "," rest = 0 -> count_char "(" rest = 0 ->
             (xs <- tokenize fuel rest ;; Ok (t :: xs)) = Ok ts ->
             forallb plain_token ts = true).
  { intros t rest Ht Hc1 Hp1 E.
    destruct (tokenize fuel rest) as [xs| |] eqn:Et; try discriminate.
    simpl in E. injection E as <-. simpl. rewrite Ht. apply (IH rest xs Hc1 Hp1 Et). }
  simpl in H.
  rewrite (Ascii.eqb_sym c "("), Ep, (Ascii.eqb_sym c ","), Ec in H.
  destruct (Ascii.eqb c " " || Ascii.eqb c "009"); [apply (IH s ts Hc' Hp' H)|].
  destruct (Ascii.eqb c "+"); [apply (Push TPlus s eq_refl Hc' Hp' H)|].
  destruct (Ascii.eqb c "-"); [apply (Push TMinus s eq_refl Hc' Hp' H)|].
  destruct (Ascii.eqb c ")"); [apply (Push TRParen s eq_refl Hc' Hp' H)|].
  destruct (Ascii.eqb c "*").
  { destruct s as [|d s2]; [apply (Push TStar _ eq_refl Hc' Hp' H)|].
    destruct (count_cons_zero _ _ _ Hc') as [_ Hc2].
    destruct (count_cons_zero _ _ _ Hp') as [_ Hp2].
    destruct (Ascii.eqb d "*") eqn:Ed.
    - apply Ascii.eqb_eq in Ed. subst d. apply (Push TPow s2 eq_refl Hc2 Hp2 H).
    - assert (E : match String d s2 with
                  | String "*" s'' => xs <- tokenize fuel s'' ;; Ok (TPow :: xs)
                  | _ => xs <- tokenize fuel (String d s2) ;; Ok (TStar :: xs)
                  end = (xs <- tokenize fuel (String d s2) ;; Ok (TStar :: xs))).
      { destruct d as [[] [] [] [] [] [] [] []]; try reflexivity; discriminate. }
      rewrite E in H. apply (Push TStar _ eq_refl Hc' Hp' H). }
  destruct (Ascii.eqb c "/").
  { destruct s as [|d s2]; [apply (Push TSlash _ eq_refl Hc' Hp' H)|].
    destruct (Ascii.eqb d "/") eqn:Ed.
    - apply Ascii.eqb_eq in Ed. subst d. discriminate.
    - assert (E : match String d s2 with
                  | String "/" _ => Outside
                  | _ => xs <- tokenize fuel (String d s2) ;; Ok (TSlash :: xs)
                  end = (xs <- tokenize fuel (String d s2) ;; Ok (TSlash :: xs))).
      { destruct d as [[] [] [] [] [] [] [] []]; try reflexivity; discriminate. }
      rewrite E in H. apply (Push TSlash _ eq_refl Hc' Hp' H). }
  destruct (is_digit c || Ascii.eqb c "."); [|discriminate].
  destruct (lex_number (String c s)) as [[v rest]| |] eqn:El; try discriminate.
  destruct (lex_number_within _ _ _ El) as [Hw Hv].
  apply (Push (TNum v) rest Hv); [| |exact H].
  - specialize (Hw ","%char). lia.
  - specialize (Hw "("%char). lia.
Qed.

Lemma plain_bind (r : pres) (f : expr * list token -> pres) :
  plain_result r ->
  (forall e rest, tuple_free e = true -> forallb plain_token rest = true ->
                  plain_result (f (e, rest))) ->
  plain_result (x <- r ;; f x).
Proof.
  intros Hr Hf. destruct r as [[e rest]| |]; simpl; try (intros ? ? ?; discriminate).
  destruct (Hr e rest eq_refl) as [He Hrest]. apply Hf; assumption.
Qed.

Lemma plain_ok (e : expr) (rest : list token) :
  tuple_free e = true -> forallb plain_token rest = true -> plain_result (Ok (e, rest)).
Proof. intros He Hr e' rest' H. injection H as <- <-. auto. Qed.

Lemma plain_fail_raise : plain_result Raise.
Proof. intros e rest H. discriminate. Qed.

Lemma plain_fail_outside : plain_result Outside.
Proof. intros e rest H. discriminate. Qed.

(** On plain tokens every function of the parser gives a tree without
    tuples and leaves plain tokens. *)
Lemma parser_plain (fuel : nat) :
  (forall ts, forallb plain_token ts = true -> plain_result (parse_sum fuel ts)) /\
  (forall acc ts, tuple_free acc = true -> forallb plain_token ts = true ->
                  plain_result (sum_rest fuel acc ts)) /\
  (forall ts, forallb plain_token ts = true -> plain_result (parse_term fuel ts)) /\
  (forall acc ts, tuple_free acc = true -> forallb plain_token ts = true ->
                  plain_result (term_rest fuel acc ts)) /\
  (forall ts, forallb plain_token ts = true -> plain_result (parse_factor fuel ts)) /\
  (forall ts, forallb plain_token ts = true -> plain_result (parse_power fuel ts)) /\
  (forall ts, forallb plain_token ts = true -> plain_result (parse_atom fuel ts)) /\
  (forall ts, forallb plain_token ts = true -> plain_result (parse_list fuel ts)).
Proof.
  induction fuel as [|fuel (Hsum & Hsumr & Hterm & Htermr & Hfac & Hpow & Hatom & Hlist)].
  - repeat apply conj; intros; apply plain_fail_outside.
  - repeat apply conj.
    + intros ts Hts. rewrite parse_sum_eq. apply plain_bind; [apply Hterm; exact Hts|].
      intros e rest He Hr. apply Hsumr; assumption.
    + intros acc ts Hacc Hts. rewrite sum_rest_eq.
      destruct ts as [|t ts]; [apply plain_ok; assumption|].
      pose proof Hts as Hall. simpl in Hts. apply andb_true_iff in Hts as [Ht Hts'].
      destruct t; try (apply plain_ok; [assumption | exact Hall]);
        (apply plain_bind; [apply Hterm; exact Hts'|];
         intros e rest He Hr; apply Hsumr; [simpl; rewrite Hacc, He; reflexivity | exact Hr]).
    + intros ts Hts. rewrite parse_term_eq. apply plain_bind; [apply Hfac; exact Hts|].
      intros e rest He Hr. apply Htermr; assumption.
    + intros acc ts Hacc Hts. rewrite term_rest_eq.
      destruct ts as [|t ts]; [apply plain_ok; assumption|].
      pose proof Hts as Hall. simpl in Hts. apply andb_true_iff in Hts as [Ht Hts'].
      destruct t; try (apply plain_ok; [assumption | exact Hall]);
        (apply plain_bind; [apply Hfac; exact Hts'|];
         intros e rest He Hr; apply Htermr; [simpl; rewrite Hacc, He; reflexivity | exact Hr]).
    + intros ts Hts.
      change (parse_factor (S fuel) ts)
        with (match ts with
              | TMinus :: ts' => r <- parse_factor fuel ts' ;; Ok (ENeg (fst r), snd r)
              | TPlus :: ts' => r <- parse_factor fuel ts' ;; Ok (EPos (fst r), snd r)
              | _ => parse_power fuel ts
              end).
      destruct ts as [|t ts']; [apply Hpow; reflexivity|].
      pose proof Hts as Hall. simpl in Hts. apply andb_true_iff in Hts as [Ht Hts'].
      destruct t; try (apply Hpow; exact Hall);
        (apply plain_bind; [apply Hfac; exact Hts'|];
         intros e rest He Hr; apply plain_ok; assumption).
    + intros ts Hts.
      change (parse_power (S fuel) ts)
        with (r <- parse_atom fuel ts ;;
              match snd r with
              | TPow :: ts' =>
                  r2 <- parse_factor fuel ts' ;; Ok (EBin Pow (fst r) (fst r2), snd r2)
              | TLParen :: _ => Outside
              | _ => Ok r
              end).
      apply plain_bind; [apply Hatom; exact Hts|].
      intros e rest He Hr. cbn [fst snd].
      destruct rest as [|t rest']; [apply plain_ok; assumption|].
      pose proof Hr as Hall. simpl in Hr. apply andb_true_iff in Hr as [Ht Hr'].
      destruct t; try (apply plain_ok; assumption); try apply plain_fail_outside.
      apply plain_bind; [apply Hfac; exact Hr'|].
      intros e2 rest2 He2 Hr2. apply plain_ok; [simpl; rewrite He, He2; reflexivity | exact Hr2].
    + intros ts Hts.
      change (parse_atom (S fuel) ts)
        with (match ts with
              | TNum v :: ts' => Ok (ENum v, ts')
              | TLParen :: TRParen :: ts' => Ok (ETuple [], ts')
              | TLParen :: ts' =>
                  r <- parse_list fuel ts' ;;
                  match snd r with
                  | TRParen :: ts'' => Ok (fst r, ts'')
                  | _ => Raise
                  end
              | TStar :: _ => Outside
              | TPow :: _ => Outside
              | _ => Raise
              end).
      destruct ts as [|t ts']; [apply plain_fail_raise|].
      simpl in Hts. apply andb_true_iff in Hts as [Ht Hts'].
      destruct t; try discriminate Ht;
        try apply plain_fail_raise; try apply plain_fail_outside.
      (* a number *)
      intros e rest H. injection H as <- <-. split; [exact Ht | exact Hts'].
    + intros ts Hts. rewrite parse_list_eq. apply plain_bind; [apply Hsum; exact Hts|].
      intros e rest He Hr. cbn [fst snd].
      destruct rest as [|t rest']; [apply plain_ok; assumption|].
      pose proof Hr as Hall. simpl in Hr. apply andb_true_iff in Hr as [Ht Hr'].
      destruct t; try discriminate Ht; apply plain_ok; assumption.
Qed.

Lemma on_floats_number (f : float -> float -> res value) (a b v : value) :
  (forall x y w, f x y = Ok w -> is_number w = true) ->
  on_floats f a b = Ok v -> is_number v = true.
Proof.
  intros Hf H. unfold on_floats in H.
  destruct (as_float a) as [x| |]; try discriminate. simpl in H.
  destruct (as_float b) as [y| |]; try discriminate. simpl in H.
  exact (Hf x y v H).
Qed.

(** an operator applied to numbers gives a number *)
Lemma binary_number (op : binop) (a b v : value) :
  is_number a = true -> is_number b = true ->
  binary op a b = Ok v -> is_number v = true.
Proof.
  intros Ha Hb H.
  assert (Hfl : forall g : float -> float -> float,
             forall x y w, Ok (VFloat (g x y)) = Ok w -> is_number w = true)
    by (intros g x y w E; injection E as <-; reflexivity).
  assert (Hpw : forall x y w,
             (f <- float_power x y ;; Ok (VFloat f)) = Ok w -> is_number w = true).
  { intros x y w E. destruct (float_power x y); try discriminate.
    injection E as <-. reflexivity. }
  assert (Hdv : forall x y w, float_div x y = Ok w -> is_number w = true).
  { intros x y w E. unfold float_div in E. destruct (y =? 0)%float; try discriminate.
    injection E as <-. reflexivity. }
  destruct op, a as [x|x|xs], b as [y|y|ys]; try discriminate; simpl in H;
    try (injection H as <-; reflexivity);
    try (apply (on_floats_number _ _ _ _ (Hfl _) H));
    try (apply (on_floats_number _ _ _ _ Hpw H));
    try (apply (on_floats_number _ _ _ _ Hdv H)).
  - destruct (y =? 0)%Z; [discriminate|].
    destruct (int_true_divide x y); try discriminate. injection H as <-. reflexivity.
  - destruct (0 <=? y)%Z; [injection H as <-; reflexivity|].
    destruct (x =? 0)%Z; [discriminate|].
    apply (on_floats_number _ _ _ _ Hpw H).
Qed.

(** a tree without tuples has a number for value *)
Lemma eval_tuple_free (e : expr) :
  tuple_free e = true -> forall v, eval_expr e = Ok v -> is_number v = true.
Proof.
  induction e as [w|e IH|e IH|op e1 IH1 e2 IH2|es]; simpl; intros Hf v H.
  - injection H as <-. exact Hf.
  - destruct (eval_expr e) as [a| |]; try discriminate. simpl in H.
    specialize (IH Hf a eq_refl). destruct a; try discriminate; injection H as <-; reflexivity.
  - destruct (eval_expr e) as [a| |]; try discriminate. simpl in H.
    specialize (IH Hf a eq_refl). destruct a; try discriminate; injection H as <-; reflexivity.
  - apply andb_true_iff in Hf as [H1 H2].
    destruct (eval_expr e1) as [a| |]; try discriminate. simpl in H.
    destruct (eval_expr e2) as [b| |]; try discriminate. simpl in H.
    exact (binary_number op a b v (IH1 H1 a eq_refl) (IH2 H2 b eq_refl) H).
  - discriminate.
Qed.

(** [eval] of a text without comma and opening bracket is no tuple *)
Lemma eval_number (s : string) (v : value) :
  count_char "," s = 0 -> count_char "(" s = 0 ->
  eval s = Ok v -> is_number v = true.
Proof.
  intros Hc Hp H. unfold eval, lex in H.
  destruct (tokenize (S (String.length s)) s) as [ts| |] eqn:Et; try discriminate.
  simpl in H. pose proof (tokenize_plain _ _ _ Hc Hp Et) as Hts.
  unfold parse in H.
  destruct (parser_plain (8 * List.length ts + 8))
    as (_ & _ & _ & _ & _ & _ & _ & Hlist).
  specialize (Hlist ts Hts).
  destruct (parse_list (8 * List.length ts + 8) ts) as [[e rest]| |]; try discriminate.
  destruct (Hlist e rest eq_refl) as [He _]. simpl in H.
  destruct rest as [|t rest]; [|destruct t; discriminate].
  simpl in H. exact (eval_tuple_free e He v H).
Qed.

Lemma str_number_text (v : value) : is_number v = true -> number_text (str v) = true.
Proof.
  destruct v as [z|f|vs]; simpl; intro H;
    [apply str_int_number_text | apply str_float_number_text | discriminate].
Qed.

(* ------------------------------------------------------------------ *)
(** ** The bracket loop on a text without commas                        *)
(* ------------------------------------------------------------------ *)

Lemma span_length r s pos caps s' pos' caps' :
  span r s pos caps s' pos' caps' ->
  pos' + String.length s' = pos + String.length s.
Proof. induction 1; simpl in *; lia. Qed.

Lemma star_span_all (k : cls) s pos caps s' pos' caps' :
  span (Star k) s pos caps s' pos' caps' ->
  exists mid, s = mid ++ s' /\ all_cls k mid = true.
Proof.
  intro H. remember (Star k) as r eqn:Er. revert Er.
  induction H; intro Er; try discriminate; injection Er as ->.
  - exists EmptyString. split; reflexivity.
  - destruct (IHspan eq_refl) as (mid & -> & Hm).
    exists (String c mid). split; [reflexivity|]. simpl. rewrite H, Hm. reflexivity.
Qed.

Lemma take_app_length (a b : string) : take (String.length a) (a ++ b) = a.
Proof. induction a as [|c a IH]; simpl; [destruct b; reflexivity | rewrite IH; reflexivity]. Qed.

Lemma take_app_one (a : string) (c : ascii) (b : string) :
  take (String.length a + 1) (a ++ String c b) = a ++ String c EmptyString.
Proof.
  induction a as [|d a IH]; simpl; [destruct b; reflexivity | rewrite IH; reflexivity].
Qed.

Lemma length_append (a b : string) :
  String.length (a ++ b) = String.length a + String.length b.
Proof. induction a as [|c a IH]; simpl; [reflexivity | rewrite IH; reflexivity]. Qed.

Lemma all_cls_none_count (l : list ascii) (c : ascii) (s : string) :
  mem c l = true -> all_cls (NoneOf l) s = true -> count_char c s = 0.
Proof.
  intro Hc. induction s as [|d s IH]; simpl; [reflexivity|].
  intro H. apply andb_true_iff in H as [Hd Hs]. rewrite (IH Hs).
  destruct (Ascii.eqb c d) eqn:E; [|reflexivity].
  apply Ascii.eqb_eq in E. subst d. rewrite Hc in Hd. discriminate.
Qed.

(** what the bracket pattern finds: an opening bracket, a text without
    brackets, a closing bracket *)
Lemma bracket_match (cur : string) (m : rmatch_obj) :
  search bracket_re cur = Some m ->
  exists inner,
    slice (m_start m) (m_end m) cur = String "(" (inner ++ ")") /\
    all_cls (NoneOf ["("; ")"]%char) inner = true /\
    m_start m <= m_end m.
Proof.
  intro H. unfold search in H.
  destruct (search_from_leftmost _ _ _ _ H) as (j & Hj & Hm & _). simpl in Hj, Hm.
  destruct (match_at_span _ _ _ _ Hm) as (s' & Hs & _).
  pose proof (span_length _ _ _ _ _ _ _ Hs) as Hlen.
  unfold bracket_re in Hs.
  inversion Hs as [| | | | | |? ? ? ? ? s1 p1 c1 ? ? ? Ho H1|]; subst; clear Hs.
  inversion H1 as [| | | | | |? ? ? ? ? s2 p2 c2 ? ? ? Hp Hc|]; subst; clear H1.
  inversion Ho as [k c0 t0 ? ? Hk0 E0| | | | | | |]; subst.
  inversion Hp as [| | | | |k c1 t1 ? ? ? ? Hk1 Hst E1| |]; subst.
  inversion Hc as [k c2 t2 ? ? Hk2 E2| | | | | | |]; subst.
  destruct (star_span_all _ _ _ _ _ _ _ Hst) as (mid & -> & Hmid).
  unfold cls_ok in Hk0, Hk2. apply Ascii.eqb_eq in Hk0, Hk2. subst c0 c2.
  exists (String c1 mid).
  assert (Hend : S p2 - m_start m = S (S (String.length mid + 1))).
  { rewrite <- H0 in Hlen. simpl in Hlen. rewrite length_append in Hlen.
    simpl in Hlen. lia. }
  split; [|split; [cbn [all_cls]; rewrite Hk1, Hmid; reflexivity | lia]].
  unfold slice. rewrite <- H0, Hend. simpl. rewrite take_app_one. reflexivity.
Qed.

Lemma count_char_slice_le (c : ascii) (a b : nat) (s : string) :
  a <= b -> count_char c (slice a b s) <= count_char c s.
Proof. intro H. rewrite (count_char_cut c a b s H). lia. Qed.

(** On a text without commas a finished turn of the bracket loop takes
    one opening bracket away and brings no comma. *)
Lemma bracket_turn_decreases (st st' : state) :
  count_char "," (current_expr st) = 0 ->
  bracket_turn st = Continue st' ->
  count_char "(" (current_expr st') + 1 = count_char "(" (current_expr st) /\
  count_char "," (current_expr st') = 0 /\
  List.length (steps st') = S (List.length (steps st)).
Proof.
  intros Hc H. unfold bracket_turn in H.
  destruct (contains_char "(" (current_expr st)); [|discriminate].
  destruct (search bracket_re (current_expr st)) as [m|] eqn:E; [|discriminate].
  destruct (bracket_match _ _ E) as (inner & Hg & Hin & Hle).
  cbv zeta in H. unfold group in H. rewrite Hg in H.
  assert (Hx : slice 1 (String.length (String "(" (inner ++ ")")) - 1)
                     (String "(" (inner ++ ")")) = inner).
  { unfold slice. simpl. rewrite length_append. simpl.
    replace (String.length inner + 1 - 0 - 1) with (String.length inner) by lia.
    apply take_app_length. }
  rewrite Hx in H.
  pose proof (count_char_slice_le "," _ _ (current_expr st) Hle) as Hci.
  rewrite Hg in Hci. simpl in Hci. rewrite count_char_app in Hci.
  destruct (eval inner) as [v| |] eqn:Ev; try discriminate.
  assert (Hv : is_number v = true).
  { apply (eval_number inner v); [lia | | exact Ev].
    apply (all_cls_none_count ["("; ")"]%char); [reflexivity | exact Hin]. }
  pose proof (str_number_text v Hv) as Hs.
  injection H as <-. unfold record_step. cbn [current_expr steps].
  rewrite !count_char_app.
  rewrite (number_text_count "(" (str v)) by (reflexivity || exact Hs).
  rewrite (number_text_count "," (str v)) by (reflexivity || exact Hs).
  pose proof (count_char_cut "(" _ _ (current_expr st) Hle) as Hp.
  pose proof (count_char_cut "," _ _ (current_expr st) Hle) as Hq.
  rewrite Hg in Hp. simpl in Hp. rewrite count_char_app in Hp.
  rewrite (all_cls_none_count ["("; ")"]%char "(" inner eq_refl Hin) in Hp. simpl in Hp.
  repeat split; [lia | lia | rewrite length_app; simpl; lia].
Qed.

Lemma bracket_turn_exit (st : state) :
  count_char "(" (current_expr st) = 0 -> bracket_turn st = Exit.
Proof.
  intro H. unfold bracket_turn. rewrite (count_char_none _ _ H). reflexivity.
Qed.



(* ------------------------------------------------------------------ *)
(** ** The shape of a returned trace                                    *)
(* ------------------------------------------------------------------ *)

Lemma starts_with_app (p x : string) : starts_with p (p ++ x) = true.
Proof.
  induction p as [|c p IH]; simpl; [reflexivity|].
  rewrite Ascii.eqb_refl. exact IH.
Qed.

(** a loop whose finished turns record steps of one kind appends steps
    of that kind *)
Lemma while_appends (P : step -> Prop) (body : state -> turn) :
  (forall st st', body st = Continue st' ->
                  exists x, steps st' = (steps st ++ [x])%list /\ P x) ->
  forall fuel st st',
    while body fuel st = Returns st' ->
    exists l, steps st' = (steps st ++ l)%list /\ Forall P l.
Proof.
  intros Hb fuel. induction fuel as [|fuel IH]; intros st st' H; simpl in H.
  - destruct (body st); try discriminate; injection H as <-;
      exists []; rewrite app_nil_r; auto.
  - destruct (body st) as [st1| | |] eqn:E; try discriminate.
    + destruct (Hb _ _ E) as (x & Hx & Px).
      destruct (IH _ _ H) as (l & Hl & Pl).
      exists (x :: l). rewrite Hl, Hx, <- app_assoc. split; [reflexivity|].
      constructor; assumption.
    + injection H as <-. exists []. rewrite app_nil_r. auto.
    + injection H as <-. exists []. rewrite app_nil_r. auto.
Qed.

Lemma bracket_turn_label (st st' : state) :
  bracket_turn st = Continue st' ->
  exists x, steps st' = (steps st ++ [x])%list /\
            starts_with "Brackets: (" (description x) = true.
Proof.
  intro H. unfold bracket_turn in H. split_turn H; injection H as <-.
  eexists. split; [reflexivity|]. cbn [description].
  apply (starts_with_app "Brackets: (").
Qed.

Lemma exponent_turn_label (st st' : state) :
  exponent_turn st = Continue st' ->
  exists x, steps st' = (steps st ++ [x])%list /\
            starts_with "Orders/Exponents: " (description x) = true.
Proof.
  intro H. unfold exponent_turn in H. split_turn H; injection H as <-.
  eexists. split; [reflexivity|]. cbn [description].
  apply (starts_with_app "Orders/Exponents: ").
Qed.

Lemma muldiv_turn_label (st st' : state) :
  muldiv_turn st = Continue st' ->
  exists x, steps st' = (steps st ++ [x])%list /\
            starts_with "Division/Multiplication: " (description x) = true.
Proof.
  intro H. unfold muldiv_turn in H. split_turn H; injection H as <-;
    (eexists; split; [reflexivity|]; cbn [description];
     apply (starts_with_app "Division/Multiplication: ")).
Qed.

Lemma addsub_turn_label (st st' : state) :
  addsub_turn st = Continue st' ->
  exists x, steps st' = (steps st ++ [x])%list /\
            starts_with "Addition/Subtraction: " (description x) = true.
Proof.
  intro H. unfold addsub_turn in H. split_turn H; injection H as <-;
    (eexists; split; [reflexivity|]; cbn [description];
     apply (starts_with_app "Addition/Subtraction: ")).
Qed.

(** X4: a returned trace is the original step followed by the steps of
    the four phases in their fixed order: brackets, then exponents, then
    multiplication and division, then addition and subtraction; no step
    of an earlier phase comes after a step of a later one. *)
Theorem trace_phases_in_order :
  forall fuel expr trace,
    get_correct_steps_fuel fuel expr = Returns trace ->
    exists b o m a,
      trace = (MkStep 0 expr "Original expression" :: b ++ o ++ m ++ a)%list /\
      phase "Brackets: (" b /\ phase "Orders/Exponents: " o /\
      phase "Division/Multiplication: " m /\ phase "Addition/Subtraction: " a.
Proof.
  intros fuel expr trace H. unfold get_correct_steps_fuel in H.
  destruct (while bracket_turn fuel (initial expr)) as [st1| |] eqn:E1; try discriminate.
  simpl in H.
  destruct (while exponent_turn fuel st1) as [st2| |] eqn:E2; try discriminate.
  simpl in H.
  destruct (while muldiv_turn fuel st2) as [st3| |] eqn:E3; try discriminate.
  simpl in H.
  destruct (while addsub_turn fuel st3) as [st4| |] eqn:E4; try discriminate.
  simpl in H. injection H as <-.
  destruct (while_appends _ _ bracket_turn_label _ _ _ E1) as (b & Hb & Pb).
  destruct (while_appends _ _ exponent_turn_label _ _ _ E2) as (o & Ho & Po).
  destruct (while_appends _ _ muldiv_turn_label _ _ _ E3) as (m & Hm & Pm).
  destruct (while_appends _ _ addsub_turn_label _ _ _ E4) as (a & Ha & Pa).
  exists b, o, m, a. rewrite Ha, Hm, Ho, Hb. simpl.
  rewrite <- !app_assoc. repeat split; assumption.
Qed.

Lemma trace_phases_in_order_witness :
  exists b o m a,
    [MkStep 0 "(10 - 4) * 2 + 3" "Original expression";
     MkStep 1 "6*2+3" "Brackets: (10-4) = 6";
     MkStep 2 "12.0+3" "Division/Multiplication: 6*2 = 12.0";
     MkStep 3 "15.0" "Addition/Subtraction: 2.0+3 = 5.0"] =
    (MkStep 0 "(10 - 4) * 2 + 3" "Original expression" :: b ++ o ++ m ++ a)%list /\
    phase "Brackets: (" b /\ phase "Orders/Exponents: " o /\
    phase "Division/Multiplication: " m /\ phase "Addition/Subtraction: " a.
Proof.
  apply (trace_phases_in_order 5 "(10 - 4) * 2 + 3"). vm_compute. reflexivity.
Defined.

Lemma addsub_turn_exit (st : state) :
  count_char "+" (drop 1 (current_expr st)) = 0 ->
  count_char "-" (drop 1 (current_expr st)) = 0 ->
  addsub_turn st = Exit.
Proof.
  intros H1 H2. unfold addsub_turn.
  rewrite (count_char_none _ _ H1), (count_char_none _ _ H2). reflexivity.
Qed.

Lemma while_exit (body : state -> turn) (fuel : nat) (st : state) :
  body st = Exit -> while body fuel st = Returns st.
Proof. intro H. destruct fuel; simpl; rewrite H; reflexivity. Qed.

(** X5: when the text, blanks removed, holds no opening bracket, no [*],
    no [/] and, behind its first character, no [+] and no [-] (the empty
    text, a literal, a signed literal, a word), the trace is the original
    step alone, whatever the fuel. *)
Theorem operator_free_trace :
  forall fuel expr,
    operator_free (remove_char " " expr) ->
    get_correct_steps_fuel fuel expr = Returns [MkStep 0 expr "Original expression"].
Proof.
  intros fuel expr (Hp & Hm & Ha & Hs).
  unfold get_correct_steps_fuel.
  assert (Hcur : current_expr (initial expr) = remove_char " " expr) by reflexivity.
  rewrite (while_exit bracket_turn) by (apply bracket_turn_exit; rewrite Hcur; exact Hp).
  cbn [then_run].
  rewrite (while_exit exponent_turn)
    by (apply exponent_turn_exit; rewrite Hcur; unfold muldiv_count in Hm; lia).
  cbn [then_run].
  rewrite (while_exit muldiv_turn) by (apply muldiv_turn_exit; rewrite Hcur; exact Hm).
  cbn [then_run].
  rewrite (while_exit addsub_turn) by (apply addsub_turn_exit; rewrite Hcur; assumption).
  reflexivity.
Qed.

Lemma operator_free_trace_witness :
  get_correct_steps_fuel 0 "" = Returns [MkStep 0 "" "Original expression"] /\
  get_correct_steps_fuel 3 " -42.5 " = Returns [MkStep 0 " -42.5 " "Original expression"].
Proof.
  split.
  - apply (operator_free_trace 0 ""). repeat split.
  - apply (operator_free_trace 3 " -42.5 "). repeat split.
Defined.

(* ------------------------------------------------------------------ *)
(** ** Blanks in the text given                                         *)
(* ------------------------------------------------------------------ *)

Ltac uniform_cases :=
  cbv zeta;
  repeat match goal with
         | |- context [match ?x with _ => _ end] =>
             lazymatch x with
             | context [match _ with _ => _ end] => fail
             | _ => destruct x
             end
         end;
  try exact I; try (do 4 eexists; split; reflexivity).

Lemma bracket_turn_uniform : uniform bracket_turn.
Proof. intros st1 st2 H. unfold bracket_turn. rewrite H. uniform_cases. Qed.

Lemma exponent_turn_uniform : uniform exponent_turn.
Proof. intros st1 st2 H. unfold exponent_turn. rewrite H. uniform_cases. Qed.

Lemma muldiv_turn_uniform : uniform muldiv_turn.
Proof. intros st1 st2 H. unfold muldiv_turn. rewrite H. uniform_cases. Qed.

Lemma addsub_turn_uniform : uniform addsub_turn.
Proof. intros st1 st2 H. unfold addsub_turn. rewrite H. uniform_cases. Qed.

Lemma record_step_same st1 st2 a b shown descr :
  same_but_first st1 st2 ->
  same_but_first (record_step st1 a b shown descr) (record_step st2 a b shown descr).
Proof.
  intros (Hc & Hn & h1 & h2 & rest & H1 & H2).
  unfold same_but_first, record_step. cbn [current_expr step_num steps].
  rewrite Hc, Hn, H1, H2. repeat split.
  exists h1, h2. eexists. split; reflexivity.
Qed.

Lemma while_same (body : state -> turn) :
  uniform body ->
  forall fuel st1 st2,
    same_but_first st1 st2 ->
    match while body fuel st1, while body fuel st2 with
    | Returns s1, Returns s2 => same_but_first s1 s2
    | NotDescribed, NotDescribed => True
    | OutOfFuel, OutOfFuel => True
    | _, _ => False
    end.
Proof.
  intros Hu fuel. induction fuel as [|fuel IH]; intros st1 st2 Hs;
    pose proof (Hu st1 st2 (proj1 Hs)) as Hb; simpl;
    destruct (body st1) as [s1| | |], (body st2) as [s2| | |];
    try contradiction; try exact I; try exact Hs.
  destruct Hb as (a & b & shown & descr & -> & ->).
  apply IH. apply record_step_same. exact Hs.
Qed.

(** X6: the steps behind the original one do not depend on the blanks of
    the text given: two texts that are equal once their blanks are
    removed get runs that end alike, with the same steps after step 0. *)
Theorem blanks_do_not_change_steps :
  forall fuel e1 e2,
    remove_char " " e1 = remove_char " " e2 ->
    same_steps_but_first (get_correct_steps_fuel fuel e1) (get_correct_steps_fuel fuel e2).
Proof.
  intros fuel e1 e2 H.
  assert (H0 : same_but_first (initial e1) (initial e2)).
  { unfold same_but_first, initial. cbn [current_expr step_num steps].
    repeat split; [exact H|]. do 3 eexists. split; reflexivity. }
  unfold get_correct_steps_fuel.
  pose proof (while_same _ bracket_turn_uniform fuel _ _ H0) as H1.
  destruct (while bracket_turn fuel (initial e1)) as [a1| |],
           (while bracket_turn fuel (initial e2)) as [a2| |];
    try contradiction; try exact I. cbn [then_run].
  pose proof (while_same _ exponent_turn_uniform fuel _ _ H1) as H2.
  destruct (while exponent_turn fuel a1) as [b1| |],
           (while exponent_turn fuel a2) as [b2| |];
    try contradiction; try exact I. cbn [then_run].
  pose proof (while_same _ muldiv_turn_uniform fuel _ _ H2) as H3.
  destruct (while muldiv_turn fuel b1) as [c1| |],
           (while muldiv_turn fuel b2) as [c2| |];
    try contradiction; try exact I. cbn [then_run].
  pose proof (while_same _ addsub_turn_uniform fuel _ _ H3) as H4.
  destruct (while addsub_turn fuel c1) as [d1| |],
           (while addsub_turn fuel c2) as [d2| |];
    try contradiction; try exact I. cbn [then_run same_steps_but_first].
  destruct H4 as (_ & _ & h1 & h2 & rest & -> & ->). reflexivity.
Qed.

Lemma blanks_do_not_change_steps_witness :
  same_steps_but_first (get_correct_steps_fuel 4 "( 10 - 4 ) * 2")
                       (get_correct_steps_fuel 4 "(10-4)*2").
Proof.
  apply (blanks_do_not_change_steps 4 "( 10 - 4 ) * 2" "(10-4)*2"). reflexivity.
Defined.

(* ------------------------------------------------------------------ *)
(** ** [solve] on texts without brackets                                *)
(* ------------------------------------------------------------------ *)

Lemma float_zero_opp (f : float) : (f =? 0)%float = true -> (- f =? 0)%float = true.
Proof.
  rewrite !eqb_spec, opp_spec.
  assert (Z0 : Prim2SF 0 = S754_zero false) by reflexivity. rewrite Z0.
  destruct (Prim2SF f) as [s|s| |s m e]; simpl; try discriminate; try reflexivity.
  - destruct s; discriminate.
  - destruct s; discriminate.
Qed.

(** the value of an operand whose literal is a number: a number, and a
    zero when the literal is one *)
Lemma operand_value_number (o : operand) :
  is_number (literal o) = true ->
  exists v, operand_value o = Ok v /\ is_number v = true /\
            (is_zero (literal o) = true -> is_zero v = true).
Proof.
  destruct o as [sg w]. unfold operand_value. simpl. intro Hw.
  induction sg as [|b sg (v & Hv & Hn & Hz)]; simpl.
  - exists w. auto.
  - rewrite Hv. simpl. destruct b.
    + destruct v as [z|f|vs]; try discriminate; simpl.
      * exists (VInt (- z)). repeat split. intro H. specialize (Hz H). simpl in Hz.
        apply Z.eqb_eq in Hz. subst z. reflexivity.
      * exists (VFloat (- f)). repeat split. intro H. specialize (Hz H). simpl in Hz.
        simpl. apply float_zero_opp. exact Hz.
    + destruct v as [z|f|vs]; try discriminate; simpl; eexists; repeat split; assumption.
Qed.

Lemma binary_div_by_zero (a b : value) :
  is_number a = true -> is_number b = true -> is_zero b = true ->
  binary Div a b = Raise.
Proof.
  intros Ha Hb Hz.
  destruct a as [x|x|xs], b as [y|y|ys]; try discriminate; simpl in Hz |- *.
  - rewrite Hz. reflexivity.
  - unfold on_floats. simpl. destruct (float_of_int x); simpl; [|reflexivity].
    unfold float_div. rewrite Hz. reflexivity.
  - apply Z.eqb_eq in Hz. subst y. unfold on_floats. simpl. reflexivity.
  - unfold on_floats. simpl. unfold float_div. rewrite Hz. reflexivity.
Qed.

Lemma binary_described (op : binop) (a b : value) :
  op <> Pow -> is_number a = true -> is_number b = true -> binary op a b <> Outside.
Proof.
  intros Hop Ha Hb.
  destruct op; try congruence;
    destruct a as [x|x|xs], b as [y|y|ys]; try discriminate;
    simpl; unfold on_floats, float_div, as_float, of_option, bind;
    repeat match goal with
           | |- context [match ?t with _ => _ end] =>
               lazymatch t with
               | context [match _ with _ => _ end] => fail
               | _ => destruct t
               end
           end; discriminate.
Qed.

Lemma binary_settled (op : binop) (a b : value) :
  op <> Pow -> is_number a = true -> is_number b = true -> settled (binary op a b).
Proof.
  intros Hop Ha Hb.
  destruct (binary op a b) as [v| |] eqn:E.
  - right. exists v. split; [reflexivity|]. exact (binary_number op a b v Ha Hb E).
  - left. reflexivity.
  - exfalso. exact (binary_described op a b Hop Ha Hb E).
Qed.

Lemma apply_settled (op : binop) (x y : res value) :
  op <> Pow -> settled x -> settled y -> settled (apply op x y).
Proof.
  intros Hop [->|(a & -> & Ha)] Hy; [left; reflexivity|].
  destruct Hy as [->|(b & -> & Hb)]; [left; reflexivity|].
  simpl. apply binary_settled; assumption.
Qed.

Lemma mul_binop_not_pow (op : mul_op) : mul_binop op <> Pow.
Proof. destruct op; discriminate. Qed.

Lemma add_binop_not_pow (op : add_op) : add_binop op <> Pow.
Proof. destruct op; discriminate. Qed.

Lemma operand_settled (o : operand) :
  is_number (literal o) = true -> settled (operand_value o).
Proof.
  intro H. destruct (operand_value_number o H) as (v & Hv & Hn & _).
  right. exists v. auto.
Qed.

(** once a pass has failed it stays failed *)
Lemma factors_raise (l : list (mul_op * operand)) :
  fold_left (fun acc x => apply (mul_binop (fst x)) acc (operand_value (snd x))) l Raise = Raise.
Proof. induction l as [|x l IH]; simpl; [reflexivity | exact IH]. Qed.

Lemma terms_raise (l : list (add_op * res value)) :
  fold_left (fun acc x => apply (add_binop (fst x)) acc (snd x)) l Raise = Raise.
Proof. induction l as [|x l IH]; simpl; [reflexivity | exact IH]. Qed.

Lemma factors_settled (l : list (mul_op * operand)) :
  forall acc,
    settled acc ->
    forallb (fun o => is_number (literal o)) (map snd l) = true ->
    settled (fold_left (fun a x => apply (mul_binop (fst x)) a (operand_value (snd x))) l acc).
Proof.
  induction l as [|x l IH]; intros acc Ha Hn; simpl; [exact Ha|].
  simpl in Hn. apply andb_true_iff in Hn as [Hx Hl].
  apply IH; [|exact Hl].
  apply apply_settled; [apply mul_binop_not_pow | exact Ha | apply operand_settled; exact Hx].
Qed.

Lemma factors_zero (l : list (mul_op * operand)) :
  forall acc,
    settled acc ->
    forallb (fun o => is_number (literal o)) (map snd l) = true ->
    existsb zero_division l = true ->
    fold_left (fun a x => apply (mul_binop (fst x)) a (operand_value (snd x))) l acc = Raise.
Proof.
  induction l as [|x l IH]; intros acc Ha Hn Hz; simpl; [discriminate|].
  simpl in Hn, Hz. apply andb_true_iff in Hn as [Hx Hl].
  apply orb_true_iff in Hz as [Hz|Hz].
  - destruct x as [op o]. unfold zero_division in Hz. simpl in Hz.
    destruct op; [discriminate|]. cbn [fst snd mul_binop].
    destruct (operand_value_number o Hx) as (z & Hv & Hzn & Hzz).
    destruct Ha as [->|(a & -> & Han)]; [apply factors_raise|].
    rewrite Hv. unfold apply at 2. cbn [bind].
    rewrite (binary_div_by_zero a z Han Hzn (Hzz Hz)).
    apply factors_raise.
  - apply IH; [|exact Hl|exact Hz].
    apply apply_settled; [apply mul_binop_not_pow | exact Ha | apply operand_settled; exact Hx].
Qed.

Lemma term_value_settled (t : term) :
  forallb (fun o => is_number (literal o)) (operands_of_term t) = true ->
  settled (term_value t).
Proof.
  intro H. unfold operands_of_term in H. simpl in H.
  apply andb_true_iff in H as [H1 H2].
  apply factors_settled; [apply operand_settled; exact H1 | exact H2].
Qed.

Lemma term_value_zero (t : term) :
  forallb (fun o => is_number (literal o)) (operands_of_term t) = true ->
  existsb zero_division (snd t) = true ->
  term_value t = Raise.
Proof.
  intros H Hz. unfold operands_of_term in H. simpl in H.
  apply andb_true_iff in H as [H1 H2].
  apply factors_zero; [apply operand_settled; exact H1 | exact H2 | exact Hz].
Qed.

Lemma two_pass_zero (e : flat) :
  numeric e = true -> divides_by_zero e = true -> two_pass e = Raise.
Proof.
  unfold numeric, divides_by_zero, terms_of, two_pass, second_pass, first_pass.
  destruct e as [t l]. simpl. intros Hn Hz.
  apply andb_true_iff in Hn as [Ht Hl].
  assert (G : forall acc,
             settled acc ->
             (acc = Raise \/
              existsb (fun t0 => existsb zero_division (snd t0)) (map snd l) = true) ->
             fold_left (fun a x => apply (add_binop (fst x)) a (snd x))
                       (map (fun x => (fst x, term_value (snd x))) l) acc = Raise).
  { clear Hz. induction l as [|x l IH]; intros acc Ha Hor; simpl.
    - destruct Hor as [->|H]; [reflexivity | discriminate].
    - simpl in Hl. apply andb_true_iff in Hl as [Hx Hl'].
      destruct Hor as [->|H]; [apply terms_raise|].
      simpl in H. apply orb_true_iff in H as [H|H].
      + rewrite (term_value_zero (snd x) Hx H).
        destruct Ha as [->|(a & -> & _)]; apply terms_raise.
      + apply (IH Hl').
        * apply apply_settled;
            [apply add_binop_not_pow | exact Ha | apply term_value_settled; exact Hx].
        * right. exact H. }
  apply orb_true_iff in Hz as [Hz|Hz].
  - rewrite (term_value_zero t Ht Hz). apply terms_raise.
  - apply G; [apply term_value_settled; exact Ht | right; exact Hz].
Qed.

(** X7: a text without brackets over numbers that divides by a literal
    zero anywhere (signed or not, [0] or [0.0]) makes [solve] return
    [None], whatever stands around the division. *)
Theorem solve_divides_by_zero :
  forall s e,
    lex s = Ok (tokens_of e) -> numeric e = true -> divides_by_zero e = true ->
    solve s = Ok None.
Proof.
  intros s e H Hn Hz. unfold solve, eval. rewrite H. simpl.
  rewrite parse_tokens_of. simpl. rewrite eval_flat_tree, (two_pass_zero e Hn Hz).
  reflexivity.
Qed.

Lemma solve_divides_by_zero_witness : solve "1 + 2 * 3 / -0.0 - 4" = Ok None.
Proof.
  apply (solve_divides_by_zero _
           ((MkOperand [] (VInt 1), []),
            [(Plus, (MkOperand [] (VInt 2),
                     [(Times, MkOperand [] (VInt 3));
                      (Over, MkOperand [true] (VFloat 0))]));
             (Minus, (MkOperand [] (VInt 4), []))]));
    vm_compute; reflexivity.
Defined.

Lemma operand_value_int (o : operand) :
  (match literal o with VInt _ => true | _ => false end) = true ->
  operand_value o = Ok (VInt (int_operand o)).
Proof.
  destruct o as [sg w]. unfold operand_value, int_operand. simpl.
  destruct w as [z|f|vs]; try discriminate. intros _.
  induction sg as [|b sg IH]; simpl; [reflexivity|].
  rewrite IH. destruct b; reflexivity.
Qed.

Lemma factors_int (l : list (mul_op * operand)) :
  forall acc,
    forallb (fun o => match literal o with VInt _ => true | _ => false end) (map snd l) = true ->
    forallb (fun x => match fst x with Times => true | _ => false end) l = true ->
    fold_left (fun a x => apply (mul_binop (fst x)) a (operand_value (snd x))) l (Ok (VInt acc)) =
    Ok (VInt (fold_left (fun a x => Z.mul a (int_operand (snd x))) l acc)).
Proof.
  induction l as [|[op o] l IH]; intros acc Hl Ho; simpl; [reflexivity|].
  simpl in Hl, Ho. apply andb_true_iff in Hl as [Hx Hl]. apply andb_true_iff in Ho as [Hop Ho].
  destruct op; [|discriminate].
  rewrite (operand_value_int o Hx). simpl. apply IH; assumption.
Qed.

Lemma term_value_int (t : term) :
  forallb (fun o => match literal o with VInt _ => true | _ => false end)
          (operands_of_term t) &&
  forallb (fun x => match fst x with Times => true | _ => false end) (snd t) = true ->
  term_value t = Ok (VInt (int_term t)).
Proof.
  intro H. apply andb_true_iff in H as [Hl Ho].
  unfold operands_of_term in Hl. simpl in Hl. apply andb_true_iff in Hl as [H1 Hl].
  unfold term_value, int_term. rewrite (operand_value_int _ H1).
  apply factors_int; assumption.
Qed.

Lemma two_pass_int (e : flat) : integral e = true -> two_pass e = Ok (VInt (int_value e)).
Proof.
  unfold integral, terms_of, two_pass, second_pass, first_pass, int_value.
  destruct e as [t l]. simpl. intro H. apply andb_true_iff in H as [Ht Hl].
  rewrite (term_value_int t Ht). generalize (int_term t) as acc.
  induction l as [|[op x] l IH]; intro acc; simpl; [reflexivity|].
  simpl in Hl. apply andb_true_iff in Hl as [Hx Hl].
  rewrite (term_value_int x Hx). destruct op; simpl; apply IH; exact Hl.
Qed.



(* ------------------------------------------------------------------ *)
(** ** [validate_answer] on the solver's own result                     *)
(* ------------------------------------------------------------------ *)

(** the difference of a float with itself is within the tolerance
    exactly when the float is finite *)
Lemma self_difference (c : float) :
  (abs (c - c) <? tolerance)%float = is_finite c.
Proof.
  unfold is_finite, is_nan, is_infinity.
  rewrite ltb_spec, !eqb_spec, !abs_spec, sub_spec.
  assert (T : Prim2SF tolerance = S754_finite false 7378697629483821 (-66)) by reflexivity.
  assert (I : Prim2SF infinity = S754_infinity false) by reflexivity.
  rewrite T, I.
  destruct (Prim2SF c) as [s|s| |s m e].
  - destruct s; reflexivity.
  - destruct s; reflexivity.
  - reflexivity.
  - unfold SF64sub, SFsub. rewrite Z.sub_diag.
    unfold SFeqb, SFcompare. rewrite Z.compare_refl, Pos.compare_cont_refl.
    destruct s; reflexivity.
Qed.

(** X9: handing [validate_answer] the very float that [solve] returns is
    judged correct exactly when that float is finite: an infinite or
    not-a-number result is never accepted, not even against itself. *)
Theorem validate_own_result :
  forall expr c,
    solve expr = Ok (Some c) ->
    validate_answer expr c = Ok (Checked (is_finite c) c c).
Proof.
  intros expr c H. unfold validate_answer. rewrite H. simpl.
  rewrite self_difference. reflexivity.
Qed.

Lemma validate_own_result_witness :
  validate_answer "1e400" infinity = Ok (Checked false infinity infinity) /\
  validate_answer "2 + 3 * 4" 14%float = Ok (Checked true 14%float 14%float).
Proof.
  split.
  - apply (validate_own_result "1e400" infinity). vm_compute. reflexivity.
  - apply (validate_own_result "2 + 3 * 4" 14%float). vm_compute. reflexivity.
Defined.

(* ------------------------------------------------------------------ *)
(** ** The sample questions                                             *)
(* ------------------------------------------------------------------ *)

(** X10: the answer listed with each sample question is what [solve]
    returns for its text, and [validate_answer] accepts it. *)
Theorem sample_answers_agree_with_solve :
  Forall (fun q =>
            exists c,
              float_of_int (q_correct_answer q) = Some c /\
              solve (q_question q) = Ok (Some c) /\
              validate_answer (q_question q) c = Ok (Checked true c c))
         get_sample_questions.
Proof.
  unfold get_sample_questions.
  repeat (constructor; [eexists; repeat split; vm_compute; reflexivity|]).
  constructor.
Qed.

(** X11: the traces of the sample questions end in these texts; only for
    questions 2, 6 and 7 is the last text the listed answer, for the
    other five it is no number at all. *)
Theorem sample_traces_last_step :
  map (last_expression 4) get_sample_questions =
    [Some "2+12.0"; Some "20.0"; Some "1-6.0"; Some "5.3.0";
     Some "8.4.0"; Some "15.0"; Some "4.0"; Some "6.20.0"] /\
  map (ends_in_answer 4) get_sample_questions =
    [false; true; false; false; false; true; true; false] /\
  map (fun q => match last_expression 4 q with
                | Some s => float_of_str s
                | None => None
                end) get_sample_questions =
    [None; Some 20%float; None; None; None; Some 15%float; Some 4%float; None].
Proof. repeat split; vm_compute; reflexivity. Qed.

(* ------------------------------------------------------------------ *)
(** ** The routes                                                       *)
(* ------------------------------------------------------------------ *)

Lemma is_empty_false (s : string) : s <> "" -> is_empty s = false.
Proof. destruct s; [intro H; contradiction H; reflexivity | reflexivity]. Qed.

(** X12: [api_solve] refuses a missing or empty expression with status
    400; for any other text its reply, when the trace returns, is status
    200 with the trace and with the answer of [solve], absent when
    [solve] fails: a text that cannot be evaluated is not reported as an
    error. *)
Theorem api_solve_replies :
  (forall fuel, api_solve_fuel fuel None = Returns (400, SolveFailure "Expression is required")) /\
  (forall fuel, api_solve_fuel fuel (Some "") =
                Returns (400, SolveFailure "Expression is required")) /\
  (forall fuel expr r,
     expr <> "" ->
     api_solve_fuel fuel (Some expr) = Returns r ->
     exists answer trace,
       r = (200, SolveSuccess expr answer trace) /\
       solve expr = Ok answer /\
       get_correct_steps_fuel fuel expr = Returns trace).
Proof.
  split; [reflexivity|]. split; [reflexivity|].
  intros fuel expr r Hne H. unfold api_solve_fuel in H. cbn [get_expression] in H.
  rewrite (is_empty_false expr Hne) in H.
  destruct (get_correct_steps_fuel fuel expr) as [trace| |]; try discriminate.
  cbn [then_run] in H.
  destruct (solve expr) as [answer| |]; try discriminate.
  injection H as <-. exists answer, trace. repeat split.
Qed.

Lemma api_solve_replies_witness :
  exists answer trace,
    (200, SolveSuccess "2 + " None [MkStep 0 "2 + " "Original expression"]) =
      (200, SolveSuccess "2 + " answer trace) /\
    solve "2 + " = Ok answer /\
    get_correct_steps_fuel 1 "2 + " = Returns trace.
Proof.
  apply (proj2 (proj2 api_solve_replies) 1 "2 + "); [discriminate|].
  vm_compute. reflexivity.
Defined.

(** X13: [api_check_answer] replies with status 400 and the error
    "Invalid expression" whenever [solve] fails on a non-empty text, and
    does so before any step is computed, whatever the fuel; when
    [solve] gives [c] and the trace returns, it replies with status 200,
    the answer as a float, [c], the verdict of the tolerance test, the
    trace and the feedback text.  An answer of 0 counts as an answer. *)
Theorem api_check_answer_replies :
  (forall fuel expr n a,
     expr <> "" -> float_of_number n = Some a -> solve expr = Ok None ->
     api_check_answer_fuel fuel (Some expr) (Some n) =
       Returns (400, CheckFailure "Invalid expression")) /\
  (forall fuel expr n a c trace,
     expr <> "" -> float_of_number n = Some a -> solve expr = Ok (Some c) ->
     get_correct_steps_fuel fuel expr = Returns trace ->
     exists feedback,
       generate_feedback (Checked (abs (a - c) <? tolerance)%float c a) = Ok feedback /\
       api_check_answer_fuel fuel (Some expr) (Some n) =
         Returns (200, CheckSuccess expr a c (abs (a - c) <? tolerance)%float trace feedback)) /\
  (forall fuel expr,
     api_check_answer_fuel fuel expr None =
       Returns (400, CheckFailure "Expression and answer are required")) /\
  (forall fuel expr n,
     float_of_number n = None -> expr <> "" ->
     api_check_answer_fuel fuel (Some expr) (Some n) =
       Returns (400, CheckFailure "Invalid answer format. Please enter a number.")).
Proof.
  repeat apply conj.
  - intros fuel expr n a Hne Hn Hs. unfold api_check_answer_fuel. cbn [get_expression].
    rewrite (is_empty_false expr Hne), Hn. unfold validate_answer. rewrite Hs. reflexivity.
  - intros fuel expr n a c trace Hne Hn Hs Ht.
    unfold api_check_answer_fuel. cbn [get_expression].
    rewrite (is_empty_false expr Hne), Hn. unfold validate_answer. rewrite Hs.
    cbn [bind]. rewrite Ht. cbn [then_run].
    destruct (abs (a - c) <? tolerance)%float; cbn [generate_feedback];
      eexists; split; reflexivity.
  - intros fuel expr. reflexivity.
  - intros fuel expr n Hn Hne. unfold api_check_answer_fuel. cbn [get_expression].
    rewrite (is_empty_false expr Hne), Hn. reflexivity.
Qed.

Lemma api_check_answer_replies_witness :
  api_check_answer_fuel 0 (Some "(1,2)") (Some (NInt 0)) =
    Returns (400, CheckFailure "Invalid expression") /\
  (exists feedback,
     generate_feedback (Checked (abs (0 - 0) <? tolerance)%float 0%float 0%float) = Ok feedback /\
     api_check_answer_fuel 2 (Some "2 - 2") (Some (NInt 0)) =
       Returns (200, CheckSuccess "2 - 2" 0%float 0%float
                       (abs (0 - 0) <? tolerance)%float
                       [MkStep 0 "2 - 2" "Original expression"] feedback)) /\
  api_check_answer_fuel 1 (Some "1") (Some (NInt (10 ^ 400))) =
    Returns (400, CheckFailure "Invalid answer format. Please enter a number.").
Proof.
  split; [|split].
  - apply (proj1 api_check_answer_replies 0 "(1,2)" (NInt 0) 0%float);
      [discriminate | reflexivity | vm_compute; reflexivity].
  - apply (proj1 (proj2 api_check_answer_replies) 2 "2 - 2" (NInt 0) 0%float 0%float);
      [discriminate | reflexivity | vm_compute; reflexivity | vm_compute; reflexivity].
  - apply (proj2 (proj2 (proj2 api_check_answer_replies)) 1 "1" (NInt (10 ^ 400)));
      [vm_compute; reflexivity | discriminate].
Defined.

(* ------------------------------------------------------------------ *)
(** ** Answers that are no finite number                                *)
(* ------------------------------------------------------------------ *)

(** an infinite or not-a-number answer is outside the tolerance of every
    float *)
Lemma non_finite_difference (a c : float) :
  is_finite a = false -> (abs (a - c) <? tolerance)%float = false.
Proof.
  unfold is_finite, is_nan, is_infinity.
  rewrite ltb_spec, !eqb_spec, !abs_spec, sub_spec.
  assert (T : Prim2SF tolerance = S754_finite false 7378697629483821 (-66)) by reflexivity.
  assert (I : Prim2SF infinity = S754_infinity false) by reflexivity.
  rewrite T, I.
  destruct (Prim2SF a) as [s|s| |s m e].
  - destruct s; discriminate.
  - intros _. destruct (Prim2SF c) as [s'|s'| |s' m' e']; destruct s; try destruct s'; reflexivity.
  - intros _. reflexivity.
  - unfold SFeqb, SFcompare. rewrite Z.compare_refl, Pos.compare_cont_refl.
    destruct s; discriminate.
Qed.

(** X14: an answer that is infinite or not a number is never judged
    correct, whatever the expression evaluates to, an infinite result
    included. *)
Theorem validate_non_finite_answer :
  forall expr a c,
    solve expr = Ok (Some c) -> is_finite a = false ->
    validate_answer expr a = Ok (Checked false c a).
Proof.
  intros expr a c H Ha. unfold validate_answer. rewrite H. simpl.
  rewrite (non_finite_difference a c Ha). reflexivity.
Qed.

Lemma validate_non_finite_answer_witness :
  validate_answer "1e400" infinity = Ok (Checked false infinity infinity) /\
  validate_answer "2+2" nan = Ok (Checked false 4%float nan).
Proof.
  split.
  - apply (validate_non_finite_answer "1e400" infinity infinity); vm_compute; reflexivity.
  - apply (validate_non_finite_answer "2+2" nan 4%float); vm_compute; reflexivity.
Defined.

(* ------------------------------------------------------------------ *)
(** ** Matched literals always convert                                  *)
(* ------------------------------------------------------------------ *)

Lemma all_cls_digits (s : string) : all_cls Digit s = all_digits s.
Proof. induction s as [|c s IH]; simpl; [reflexivity | rewrite IH; reflexivity]. Qed.

Lemma append_assoc (a b c : string) : (a ++ b) ++ c = a ++ (b ++ c).
Proof. induction a as [|x a IH]; simpl; [reflexivity | rewrite IH; reflexivity]. Qed.

(** the text an unsigned literal is matched on: digits and a fraction *)
Lemma unsigned_span s pos caps s' pos' caps' :
  span unsigned_re s pos caps s' pos' caps' ->
  exists d ds fr,
    s = String d (ds ++ fr ++ s') /\
    is_digit d = true /\ all_digits ds = true /\ is_fraction fr = true.
Proof.
  intro H. unfold unsigned_re in H.
  inversion H as [| | | | | |? ? ? ? ? s1 p1 c1 ? ? ? Hp H1|]; subst; clear H.
  inversion H1 as [| | | | | |? ? ? ? ? s2 p2 c2 ? ? ? Ho Hs|]; subst; clear H1.
  inversion Hp as [| | | | |k d t1 ? ? ? ? Hd Hst E1| |]; subst.
  destruct (star_span_all _ _ _ _ _ _ _ Hst) as (ds & -> & Hds).
  destruct (star_span_all _ _ _ _ _ _ _ Hs) as (fs & -> & Hfs).
  rewrite all_cls_digits in Hds, Hfs.
  inversion Ho; subst.
  - exists d, (ds ++ fs), EmptyString. rewrite append_assoc.
    repeat split; [exact Hd | rewrite all_digits_app, Hds, Hfs; reflexivity].
  - match goal with
    | Hc : cls_ok (Lit ".") ?c = true |- _ =>
        unfold cls_ok in Hc; apply Ascii.eqb_eq in Hc; subst c
    end.
    exists d, ds, (String "." fs). repeat split; [exact Hd | exact Hds | exact Hfs].
Qed.

Lemma read_digits_app (x : string) :
  forall rest acc cnt,
    all_digits x = true ->
    exists acc',
      read_digits (x ++ rest) acc cnt =
      read_digits rest acc' (cnt + Z.of_nat (String.length x))%Z.
Proof.
  induction x as [|c x IH]; intros rest acc cnt H.
  - exists acc. cbn [append String.length Z.of_nat]. rewrite Z.add_0_r. reflexivity.
  - cbn [all_digits] in H. apply andb_true_iff in H as [Hc Hx].
    cbn [append read_digits String.length]. rewrite Hc.
    destruct (IH rest (10 * acc + digit_val c)%Z (cnt + 1)%Z Hx) as [acc' E].
    exists acc'. rewrite E. f_equal. lia.
Qed.

Lemma read_digits_stop (fr : string) (acc cnt : Z) :
  is_fraction fr = true -> read_digits fr acc cnt = (acc, cnt, fr).
Proof.
  destruct fr as [|c fs]; [reflexivity|]. simpl. intro H.
  apply andb_true_iff in H as [Hc _]. apply Ascii.eqb_eq in Hc. subst c. reflexivity.
Qed.

(** [float] accepts digits followed by a fraction, signed or not *)
Lemma float_of_str_literal (neg : bool) (d : ascii) (ds fr : string) :
  is_digit d = true -> all_digits ds = true -> is_fraction fr = true ->
  float_of_str ((if neg then "-" else "") ++ String d (ds ++ fr)) <> None.
Proof.
  intros Hd Hds Hfr.
  assert (Hbody : forall sign,
             (let '(ip, icnt, rest) := read_digits (String d (ds ++ fr)) 0 0 in
              if (icnt =? 0)%Z then None
              else match rest with
                   | EmptyString => Some (float_of_decimal sign ip 0)
                   | String "." rest' =>
                       let '(fp, fcnt, rest'') := read_digits rest' ip 0 in
                       match rest'' with
                       | EmptyString => Some (float_of_decimal sign fp (- fcnt))
                       | _ => None
                       end
                   | _ => None
                   end) <> None).
  { intro sign.
    destruct (read_digits_app (String d ds) fr 0%Z 0%Z) as [ip E];
      [simpl; rewrite Hd, Hds; reflexivity|].
    change (String d ds ++ fr) with (String d (ds ++ fr)) in E.
    rewrite E, (read_digits_stop fr _ _ Hfr).
    replace ((0 + Z.of_nat (String.length (String d ds)) =? 0)%Z) with false
      by (symmetry; apply Z.eqb_neq; simpl String.length; lia).
    destruct fr as [|c fs]; [discriminate|].
    simpl in Hfr. apply andb_true_iff in Hfr as [Hc Hfs].
    apply Ascii.eqb_eq in Hc. subst c.
    destruct (read_digits_app fs EmptyString ip 0%Z Hfs) as [fp F].
    replace (fs ++ "") with fs in F
      by (clear; induction fs as [|c fs IH]; simpl; [reflexivity | rewrite <- IH; reflexivity]).
    rewrite F. simpl. discriminate. }
  unfold float_of_str. destruct neg.
  - simpl append. exact (Hbody true).
  - simpl append. specialize (Hbody false).
    destruct d as [[] [] [] [] [] [] [] []]; try discriminate Hd; exact Hbody.
Qed.

(** what a signed literal is matched on converts *)
Lemma signed_span_converts s pos caps s' pos' caps' :
  span signed_re s pos caps s' pos' caps' ->
  float_of_str (take (pos' - pos) s) <> None.
Proof.
  intro H. pose proof (span_length _ _ _ _ _ _ _ H) as Hlen.
  destruct (span_offsets _ _ _ _ _ _ _ H) as [Hle _].
  replace (pos' - pos) with (String.length s - String.length s') by lia.
  clear Hlen Hle. unfold signed_re in H.
  inversion H as [| | | | | |? ? ? ? ? s1 p1 c1 ? ? ? Ho Hu|]; subst; clear H.
  destruct (unsigned_span _ _ _ _ _ _ Hu) as (d & ds & fr & -> & Hd & Hds & Hfr).
  assert (Ht : forall (pre : string),
             take (String.length (pre ++ String d (ds ++ fr ++ s')) - String.length s')
                  (pre ++ String d (ds ++ fr ++ s')) = pre ++ String d (ds ++ fr)).
  { intro pre.
    replace (pre ++ String d (ds ++ fr ++ s')) with ((pre ++ String d (ds ++ fr)) ++ s').
    - rewrite length_append, Nat.add_sub. apply take_app_length.
    - rewrite append_assoc. simpl. rewrite append_assoc. reflexivity. }
  inversion Ho; subst.
  - change (String d (ds ++ fr ++ s')) with ("" ++ String d (ds ++ fr ++ s')).
    rewrite (Ht ""). apply (float_of_str_literal false); assumption.
  - match goal with
    | Hc : cls_ok (Lit "-") ?c = true |- _ =>
        unfold cls_ok in Hc; apply Ascii.eqb_eq in Hc; subst c
    end.
    match goal with
    | |- context [String "-" ?t] => change (String "-" t) with ("-" ++ t)
    end.
    rewrite (Ht "-"). apply (float_of_str_literal true); assumption.
Qed.

(** both operands of a match of [binop_re] convert *)
Lemma binop_span_converts (ops : list ascii) s pos s' pos' caps' :
  span (binop_re ops) s pos [] s' pos' caps' ->
  exists p1 p3,
    find_cap 1 caps' = Some (pos, p1) /\ find_cap 3 caps' = Some (p3, pos') /\
    pos <= p1 /\ p1 <= p3 /\ p3 <= pos' /\
    float_of_str (take (p1 - pos) s) <> None /\
    float_of_str (take (pos' - p3) (drop (p3 - pos) s)) <> None.
Proof.
  intro H. unfold binop_re in H.
  inversion H as [| | | | | |? ? ? ? ? s1 p1 c1 ? ? ? Hg1 H1|]; subst; clear H.
  inversion Hg1 as [| | | | | | |? ? ? ? ? ? ? ? Hn1]; subst.
  inversion H1 as [| | | | | |? ? ? ? ? s2 p2 c2 ? ? ? Hsp1 H2|]; subst; clear H1.
  inversion H2 as [| | | | | |? ? ? ? ? s3 p3 c3 ? ? ? Hg2 H3|]; subst; clear H2.
  inversion Hg2 as [| | | | | | |? ? ? ? ? ? ? ? Hop]; subst.
  inversion H3 as [| | | | | |? ? ? ? ? s4 p4 c4 ? ? ? Hsp2 Hg3|]; subst; clear H3.
  inversion Hg3 as [| | | | | | |? ? ? ? ? ? ? ? Hn3]; subst.
  pose proof (span_groupless _ _ _ _ _ _ _ Hn1 eq_refl) as ->.
  pose proof (span_groupless _ _ _ _ _ _ _ Hsp1 eq_refl) as ->.
  pose proof (span_groupless _ _ _ _ _ _ _ Hop eq_refl) as E0.
  pose proof (span_groupless _ _ _ _ _ _ _ Hsp2 eq_refl) as E2.
  pose proof (span_groupless _ _ _ _ _ _ _ Hn3 eq_refl) as E3.
  subst.
  destruct (span_offsets _ _ _ _ _ _ _ Hn1) as [L1 D1].
  destruct (span_offsets _ _ _ _ _ _ _ Hsp1) as [L2 D2].
  destruct (span_offsets _ _ _ _ _ _ _ Hop) as [L3 D3].
  destruct (span_offsets _ _ _ _ _ _ _ Hsp2) as [L4 D4].
  destruct (span_offsets _ _ _ _ _ _ _ Hn3) as [L5 D5].
  simpl in L1, L2, L3, L4, L5.
  exists p1, p4. simpl find_cap.
  split; [reflexivity|]. split; [reflexivity|].
  split; [lia|]. split; [lia|]. split; [lia|].
  split; [exact (signed_span_converts _ _ _ _ _ _ Hn1)|].
  assert (E4 : s4 = drop (p4 - pos) s).
  { rewrite D4, D3, D2, D1, !drop_drop. f_equal. lia. }
  rewrite <- E4. exact (signed_span_converts _ _ _ _ _ _ Hn3).
Qed.

Lemma search_binop_converts (ops : list ascii) (s : string) (m : rmatch_obj) :
  search (binop_re ops) s = Some m ->
  float_of_str (group s m 1) <> None /\ float_of_str (group s m 3) <> None.
Proof.
  intro H. unfold search in H.
  destruct (search_from_leftmost _ _ _ _ H) as (j & Hj & Hm & _). simpl in Hj, Hm.
  destruct (match_at_span _ _ _ _ Hm) as (s' & Hs & _).
  destruct (binop_span_converts _ _ _ _ _ _ Hs)
    as (p1 & p3 & C1 & C3 & L1 & L2 & L3 & F1 & F3).
  unfold group. rewrite C1, C3. unfold slice. split; [exact F1|].
  rewrite drop_drop in F3. replace (p3 - j + j) with p3 in F3 by lia. exact F3.
Qed.

(** X15: the multiplication/division loop and the addition/subtraction
    loop leave through [break] exactly when an operator character is still
    in the text (for additions and subtractions: behind its first
    character) and the pattern of the loop finds nothing: the two literals
    of a match always pass [float], so the conversion never raises, and no
    turn of these loops is left undescribed. *)
Theorem arithmetic_loops_break_without_match :
  forall st,
    (muldiv_turn st = Break <->
       (contains_char "*" (current_expr st) || contains_char "/" (current_expr st) = true /\
        search muldiv_re (current_expr st) = None)) /\
    (addsub_turn st = Break <->
       (contains_char "+" (drop 1 (current_expr st))
          || contains_char "-" (drop 1 (current_expr st)) = true /\
        search addsub_re (drop 1 (current_expr st)) = None)) /\
    muldiv_turn st <> Unknown /\ addsub_turn st <> Unknown.
Proof.
  intro st. unfold muldiv_turn, addsub_turn.
  destruct (contains_char "*" (current_expr st) || contains_char "/" (current_expr st));
    destruct (contains_char "+" (drop 1 (current_expr st))
              || contains_char "-" (drop 1 (current_expr st)));
    destruct (search muldiv_re (current_expr st)) as [m|] eqn:Em;
    destruct (search addsub_re (drop 1 (current_expr st))) as [m'|] eqn:Ea;
    try (destruct (search_binop_converts _ _ _ Em) as [F1 F3];
         destruct (float_of_str (group (current_expr st) m 1)); [|congruence];
         destruct (float_of_str (group (current_expr st) m 3)); [|congruence]);
    try (destruct (search_binop_converts _ _ _ Ea) as [G1 G3];
         destruct (float_of_str (group (drop 1 (current_expr st)) m' 1)); [|congruence];
         destruct (float_of_str (group (drop 1 (current_expr st)) m' 3)); [|congruence]);
    unfold iff; repeat apply conj; intros;
    try discriminate; try reflexivity; try (split; reflexivity);
    match goal with
    | H : _ /\ _ |- _ => destruct H; discriminate
    end.
Qed.

Lemma arithmetic_loops_break_without_match_witness :
  muldiv_turn (MkState [] 1 "2*") = Break /\
  addsub_turn (MkState [] 1 "2+3") = Break.
Proof.
  split.
  - apply (arithmetic_loops_break_without_match (MkState [] 1 "2*")).
    vm_compute. split; reflexivity.
  - apply (arithmetic_loops_break_without_match (MkState [] 1 "2+3")).
    vm_compute. split; reflexivity.
Defined.
